(** * ScatterColumns: the CPU functor [CountAndCopy]

    A shallow embedding of
    [tensorflow/core/user_ops/scatter_columns_functor.h] and the proofs of
    its specification.

    Modelling conventions.
    - The index type [IndT], a template parameter, and the [int64] counts
      are [Z].  The variables the source declares [int] ([pad_cols],
      [max_cons_pad_cols], [c], [row], [col]) are 32-bit: every addition on
      them is checked, and signed overflow, which is undefined behaviour in
      C++, is the outcome [Fault].
    - A [std::vector] is a [list]; reading or writing outside of it is
      undefined behaviour in C++ and is the outcome [Fault] here.
    - An Eigen matrix view is a row-major flat buffer with its two dimensions.
    - [while] loops and [for] loops whose counter is changed by the body run
      on fuel; running out of fuel is the outcome [OutOfFuel].  [for] loops
      whose counter is only stepped by the loop header run over their range.
    - [errors::InvalidArgument(a, b, ...)] keeps its argument list.
    - The output buffer carries, as a ghost field, the history of the
      [memcpy] calls into it. *)

From stdpp Require Import base numbers list gmap sets strings.
From Stdlib Require Import ZArith Lia.

Local Open Scope Z_scope.

(** ** Outcomes of running a piece of the program *)

Inductive result (A : Type) : Type :=
  | Done (a : A)   (* normal completion *)
  | Fault          (* undefined behaviour or a C++ exception *)
  | OutOfFuel.     (* the fuel of a loop ran out *)
Arguments Done {A} a.
Arguments Fault {A}.
Arguments OutOfFuel {A}.

Definition rbind {A B : Type} (m : result A) (k : A -> result B) : result B :=
  match m with
  | Done a => k a
  | Fault => Fault
  | OutOfFuel => OutOfFuel
  end.

Notation "x <- m ;; k" := (rbind m (fun x => k))
  (at level 100, m at next level, right associativity).

(** What an iteration of a loop asks for: go on with a new state, or leave
    the loop with a value ([break], or a [return] out of the function). *)
Inductive ctl (S R : Type) : Type :=
  | Next (s : S)
  | Stop (r : R).
Arguments Next {S R} s.
Arguments Stop {S R} r.

(** A loop with an exit test inside its body, run on fuel. *)
Fixpoint iter {S R : Type} (fuel : nat) (body : S -> result (ctl S R)) (s : S)
  : result R :=
  match fuel with
  | O => OutOfFuel
  | Datatypes.S fuel' =>
      c <- body s ;;
      match c with
      | Next s' => iter fuel' body s'
      | Stop r => Done r
      end
  end.

(** [for (IndT i = lo; i < lo + n; i++) body], the body leaving [i] alone. *)
Fixpoint for_range {S R : Type} (n : nat) (i : Z)
    (body : Z -> S -> result (ctl S R)) (s : S) : result (ctl S R) :=
  match n with
  | O => Done (Next s)
  | Datatypes.S n' =>
      c <- body i s ;;
      match c with
      | Next s' => for_range n' (i + 1) body s'
      | Stop r => Done (Stop r)
      end
  end.

(** ** The type [int] *)

Definition INT_MAX : Z := 2147483647.
Definition INT_MIN : Z := -2147483648.

(** [a + b] on two [int]: signed overflow is undefined behaviour. *)
Definition int_add (a b : Z) : result Z :=
  if (INT_MIN <=? a + b) && (a + b <=? INT_MAX) then Done (a + b) else Fault.

(** [for (int i = lo; i < lo + n; i++) body], the body leaving [i] alone:
    the counter is stepped after every iteration, also after the last. *)
Fixpoint for_int {S R : Type} (n : nat) (i : Z)
    (body : Z -> S -> result (ctl S R)) (s : S) : result (ctl S R) :=
  match n with
  | O => Done (Next s)
  | Datatypes.S n' =>
      c <- body i s ;;
      match c with
      | Next s' => i' <- int_add i 1 ;; for_int n' i' body s'
      | Stop r => Done (Stop r)
      end
  end.

(** ** Vectors *)

(** [std::vector<A> v(n, x)]: a negative [n] converts to a huge [size_t] and
    the constructor throws [std::length_error]. *)
Definition vector_fill {A : Type} (n : Z) (x : A) : result (list A) :=
  if n <? 0 then Fault else Done (replicate (Z.to_nat n) x).

(** [v[i]] as an rvalue. *)
Definition vec_get {A : Type} (v : list A) (i : Z) : result A :=
  if i <? 0 then Fault
  else match v !! Z.to_nat i with
       | Some x => Done x
       | None => Fault
       end.

(** [v[i] = x]. *)
Definition vec_set {A : Type} (v : list A) (i : Z) (x : A) : result (list A) :=
  if (0 <=? i) && (i <? Z.of_nat (length v))
  then Done (<[Z.to_nat i := x]> v)
  else Fault.

(** ** Status *)

Inductive piece : Type :=
  | Str (s : string)
  | Num (n : Z).

Inductive Status : Type :=
  | OK
  | InvalidArgument (msg : list piece).

(** Modelled from the spec: [FastBoundsCheck] of
    [tensorflow/core/kernels/bounds_check.h] is not among the files
    verified here; the specification gives the accepted range of an index
    as the zero-based half-open interval from 0 to the limit. *)
Definition FastBoundsCheck (index limit : Z) : bool :=
  (0 <=? index) && (index <? limit).

(** ** Matrices *)

Section Functor.

Context {T : Type}.

(** [TTypes<T>::ConstMatrix]: a read-only row-major view. *)
Record ConstMatrix : Type := mkConstMatrix {
  cdim0 : Z;
  cdim1 : Z;
  cdata : list T
}.

(** [TTypes<T>::Matrix]: a mutable row-major view.  [writes] is a ghost
    field: the [(offset, count)] of every [memcpy] into the buffer, oldest
    first. *)
Record Matrix : Type := mkMatrix {
  dim0 : Z;
  dim1 : Z;
  data : list T;
  writes : list (Z * Z)
}.

(** The offset of [&m(r, c)] from the start of the buffer. *)
Definition coffset (m : ConstMatrix) (r c : Z) : result Z :=
  if (0 <=? r) && (r <? cdim0 m) && (0 <=? c) && (c <? cdim1 m)
  then Done (r * cdim1 m + c)
  else Fault.

Definition offset (m : Matrix) (r c : Z) : result Z :=
  if (0 <=? r) && (r <? dim0 m) && (0 <=? c) && (c <? dim1 m)
  then Done (r * dim1 m + c)
  else Fault.

(** Reading the cells, for the statements. *)
Definition cmat_get (m : ConstMatrix) (r c : Z) : result T :=
  o <- coffset m r c ;; vec_get (cdata m) o.

Definition mat_get (m : Matrix) (r c : Z) : result T :=
  o <- offset m r c ;; vec_get (data m) o.

(** [memcpy(dst + d, src + s, n * sizeof(T))] on the cells of two buffers. *)
Definition memcpy (dst : list T) (d : Z) (src : list T) (s : Z) (n : Z)
  : result (list T) :=
  if (0 <=? d) && (0 <=? s) && (0 <=? n)
     && (d + n <=? Z.of_nat (length dst)) && (s + n <=? Z.of_nat (length src))
  then Done (take (Z.to_nat d) dst
             ++ take (Z.to_nat n) (drop (Z.to_nat s) src)
             ++ drop (Z.to_nat (d + n)) dst)
  else Fault.

(** [memcpy(&output(r, c), src + s, n * sizeof(T))]. *)
Definition memcpy_to (output : Matrix) (r c : Z) (src : list T) (s n : Z)
  : result Matrix :=
  d <- offset output r c ;;
  cells <- memcpy (data output) d src s n ;;
  Done {| dim0 := dim0 output; dim1 := dim1 output; data := cells;
          writes := writes output ++ [(d, n)] |}.

(** ** The function, loop by loop *)

(** Lines 49-58: the body of the loop that checks each index and arranges
    the output indices. *)
Definition arrange_body (indices : list Z) (out_num_cols : Z)
    (i : Z) (out_indices : list Z) : result (ctl (list Z) Status) :=
  ind <- vec_get indices i ;;
  if negb (FastBoundsCheck ind out_num_cols)
  then Done (Stop (InvalidArgument
         [Str "Indices("; Num i; Str "): "; Num ind;
          Str " is not in range (0, "; Num out_num_cols; Str "]."]))
  else
    out_indices' <- vec_set out_indices ind i ;;
    Done (Next out_indices').

(** Lines 75-82: [while(out_indices[c + pad_cols] < 0)], state [pad_cols];
    [c] and [pad_cols] are [int]. *)
Definition count_pad_body (out_indices : list Z) (out_num_cols c : Z)
    (pad_cols : Z) : result (ctl Z Z) :=
  at_ <- int_add c pad_cols ;;
  x <- vec_get out_indices at_ ;;
  if x <? 0 then
    pad_cols <- int_add pad_cols 1 ;;
    next <- int_add c pad_cols ;;
    if next >=? out_num_cols then Done (Stop pad_cols)
    else Done (Next pad_cols)
  else Done (Stop pad_cols).

(** Lines 89-92: [while(pad_cols > 0) cons_pad_cols[c++] = pad_cols--;],
    state [(cons_pad_cols, c, pad_cols)]. *)
Definition fill_run_body (st : list Z * Z * Z)
  : result (ctl (list Z * Z * Z) (list Z * Z)) :=
  let '(cons_pad_cols, c, pad_cols) := st in
  if pad_cols >? 0 then
    cons_pad_cols' <- vec_set cons_pad_cols c pad_cols ;;
    c' <- int_add c 1 ;;
    pad_cols' <- int_add pad_cols (-1) ;;
    Done (Next (cons_pad_cols', c', pad_cols'))
  else Done (Stop (cons_pad_cols, c)).

(** Lines 72-93: [for(int c = 0; c < out_num_cols; c++)], state
    [(c, cons_pad_cols, max_cons_pad_cols)]. *)
Definition compress_body (fuel : nat) (out_indices : list Z) (out_num_cols : Z)
    (st : Z * list Z * Z) : result (ctl (Z * list Z * Z) (list Z * Z)) :=
  let '(c, cons_pad_cols, max_cons_pad_cols) := st in
  if c <? out_num_cols then
    pad_cols <- iter fuel (count_pad_body out_indices out_num_cols c) 0 ;;
    let max_cons_pad_cols :=
      if pad_cols >? max_cons_pad_cols then pad_cols else max_cons_pad_cols in
    filled <- iter fuel fill_run_body (cons_pad_cols, c, pad_cols) ;;
    let '(cons_pad_cols', c') := filled in
    c'' <- int_add c' 1 ;;
    Done (Next (c'', cons_pad_cols', max_cons_pad_cols))
  else Done (Stop (cons_pad_cols, max_cons_pad_cols)).

(** Lines 101-129: [for(int col = 0; col < out_num_cols;)], state
    [(col, output)].  The prefetch hints compute addresses only; the sum
    [col + 1] and the read of [out_indices[col+1]] that guard them are
    kept. *)
Definition copy_body (params : ConstMatrix) (out_indices cons_pad_cols : list Z)
    (pad_elem_vec : list T) (out_num_cols row : Z)
    (st : Z * Matrix) : result (ctl (Z * Matrix) Matrix) :=
  let '(col, output) := st in
  if col <? out_num_cols then
    next <- int_add col 1 ;;
    _ <- (if next <? out_num_cols
          then nxt <- vec_get out_indices next ;; Done (nxt >=? 0)
          else Done false) ;;
    src <- vec_get out_indices col ;;
    if src >=? 0 then
      s <- coffset params row src ;;
      output' <- memcpy_to output row col (cdata params) s 1 ;;
      col' <- int_add col 1 ;;
      Done (Next (col', output'))
    else
      n <- vec_get cons_pad_cols col ;;
      output' <- memcpy_to output row col pad_elem_vec 0 n ;;
      col' <- int_add col n ;;
      Done (Next (col', output'))
  else Done (Stop output).

(** Lines 99-130: the body of [for(int row = 0; row < params_rows; row++)]. *)
Definition row_body (fuel : nat) (params : ConstMatrix)
    (out_indices cons_pad_cols : list Z) (pad_elem_vec : list T)
    (out_num_cols : Z) (row : Z) (output : Matrix)
  : result (ctl Matrix Empty_set) :=
  output' <- iter fuel (copy_body params out_indices cons_pad_cols
                          pad_elem_vec out_num_cols row) (0, output) ;;
  Done (Next output').

(** Lines 22-133.  The result pairs the returned [Status] with the output
    buffer as the call leaves it. *)
Definition CountAndCopy (fuel : nat) (params : ConstMatrix) (indices : list Z)
    (out_num_cols : Z) (pad_elem : T) (params_rows params_cols : Z)
    (output : Matrix) : result (Status * Matrix) :=
  let indices_size := Z.of_nat (length indices) in
  let unique_ind : gset Z := list_to_set indices in
  if negb (Z.of_nat (size unique_ind) =? indices_size) then
    Done (InvalidArgument
            [Str "Indices cannot contain duplicates.";
             Str " Total no. of indices: "; Num indices_size;
             Str " != no. of unique indices: "; Num (Z.of_nat (size unique_ind));
             Str "."], output)
  else
    out_indices <- vector_fill out_num_cols (-1) ;;
    a <- for_range (Z.to_nat indices_size) 0
           (arrange_body indices out_num_cols) out_indices ;;
    match a with
    | Stop st => Done (st, output)
    | Next out_indices =>
        cons_pad_cols <- vector_fill out_num_cols 0 ;;
        compressed <- iter fuel (compress_body fuel out_indices out_num_cols)
                        (0, cons_pad_cols, 0) ;;
        let '(cons_pad_cols, max_cons_pad_cols) := compressed in
        let pad_elem_vec := replicate (Z.to_nat max_cons_pad_cols) pad_elem in
        r <- for_int (Z.to_nat params_rows) 0
               (row_body fuel params out_indices cons_pad_cols pad_elem_vec
                         out_num_cols) output ;;
        match r with
        | Next output' => Done (OK, output')
        | Stop e => match e with end
        end
    end.

End Functor.

Arguments ConstMatrix T : clear implicits.
Arguments Matrix T : clear implicits.

(** Lines 135-146: [ScatterColumnsFunctorCPU::operator()]. *)
Definition ScatterColumnsFunctorCPU {T : Type} (fuel : nat)
    (params : ConstMatrix T) (indices : list Z) (out_num_cols : Z)
    (pad_elem : T) (params_rows params_cols : Z) (output : Matrix T)
  : result (Status * Matrix T) :=
  CountAndCopy fuel params indices out_num_cols pad_elem params_rows
    params_cols output.

(** Lines 160-172: [ScatterColumnsFunctor<CPUDevice, T, IndT>::operator()].
    The device [dvc] is an [Eigen::ThreadPoolDevice]; the body does not
    touch it. *)
Definition ScatterColumnsFunctor {CPUDevice T : Type} (dvc : CPUDevice)
    (fuel : nat) (params : ConstMatrix T) (indices : list Z) (out_num_cols : Z)
    (pad_elem : T) (params_rows params_cols : Z) (output : Matrix T)
  : result (Status * Matrix T) :=
  ScatterColumnsFunctorCPU fuel params indices out_num_cols pad_elem
    params_rows params_cols output.

(** ** Vocabulary of the specification *)

(** [unless_overflow bounded Q res]: the run [res] has completed with a
    value that satisfies [Q], or it has met an overflow of an [int], which
    the sizes being [bounded] excludes; it has not run out of fuel. *)
Definition unless_overflow {A : Type} (bounded : Prop) (Q : A -> Prop)
    (res : result A) : Prop :=
  match res with
  | Done a => Q a
  | Fault => ~ bounded
  | OutOfFuel => False
  end.

(** The entry of an integer vector, 0 outside of it. *)
Definition zget (v : list Z) (i : Z) : Z := default 0 (v !! Z.to_nat i).

(** [covers k w]: the write [w = (offset, count)] touches the cell [k]. *)
Definition covers (k : Z) (w : Z * Z) : bool :=
  (w.1 <=? k) && (k <? w.1 + w.2).

(** How many of the writes [ws] touch the cell [k]. *)
Definition times_written (k : Z) (ws : list (Z * Z)) : nat :=
  length (filter (fun w => covers k w = true) ws).

(** [tiling lo hi ws]: the writes [ws] are consecutive non-empty intervals,
    the first starting at [lo], each starting where the one before it ends,
    the last ending at [hi]. *)
Fixpoint tiling (lo hi : Z) (ws : list (Z * Z)) : Prop :=
  match ws with
  | [] => lo = hi
  | w :: ws' => w.1 = lo /\ 1 <= w.2 /\ tiling (lo + w.2) hi ws'
  end.

(** [arranged indices W out]: [out] is the inverse map of [indices] over
    the [W] destinations, -1 marking the destinations no source maps to. *)
Definition arranged (indices : list Z) (W : Z) (out : list Z) : Prop :=
  length out = Z.to_nat W /\
  forall d, 0 <= d < W ->
    (zget out d = -1 /\ d ∉ indices) \/
    (0 <= zget out d /\ indices !! Z.to_nat (zget out d) = Some d).

(** [runs out W cons max]: at every padding destination [c], [cons] holds
    the length of a run of padding destinations that starts at [c], stays
    inside the row and is no longer than [max]; and [max] is 0 or the
    length held at some padding destination. *)
Definition runs (out : list Z) (W : Z) (cons : list Z) (max : Z) : Prop :=
  length cons = Z.to_nat W /\ 0 <= max /\
  (forall c, 0 <= c < W -> zget out c < 0 ->
     1 <= zget cons c <= max /\ c + zget cons c <= W /\
     forall k, c <= k < c + zget cons c -> zget out k < 0) /\
  (max = 0 \/ exists c, 0 <= c < W /\ zget out c < 0 /\ zget cons c = max).

(** [walk_step out cons W r w]: the write [w] is a step of the column walk
    of row [r]: it starts at a column of the row and covers one cell at a
    mapped column, [cons[col]] cells at a padding column. *)
Definition walk_step (out cons : list Z) (W r : Z) (w : Z * Z) : Prop :=
  let col := w.1 - r * W in
  0 <= col < W /\
  ((0 <= zget out col /\ w.2 = 1) \/ (zget out col < 0 /\ w.2 = zget cons col)).

(** [exact_runs out W cons]: [cons] is 0 at every mapped destination, and
    at every padding destination [c] it is the length of the whole run of
    padding destinations from [c] on: the run stays inside the row and ends
    at the end of the row or right before a mapped destination. *)
Definition exact_runs (out : list Z) (W : Z) (cons : list Z) : Prop :=
  length cons = Z.to_nat W /\
  forall c, 0 <= c < W ->
    (0 <= zget out c -> zget cons c = 0) /\
    (zget out c < 0 ->
       1 <= zget cons c /\ c + zget cons c <= W /\
       (forall k, c <= k < c + zget cons c -> zget out k < 0) /\
       (c + zget cons c < W -> 0 <= zget out (c + zget cons c))).

(** The example of the source comments, lines 46-48 and 64-66. *)
Definition ex_out_indices : list Z := [-1; -1; 2; 3; 1; -1; -1; 0; -1; -1].
Definition ex_cons_pad_cols : list Z := [2; 1; 0; 0; 0; 2; 1; 0; 2; 1].

Section Vocabulary.

Context {T : Type}.

(** The shapes the caller promises: [params] is [rows] by [cols], [indices]
    has [cols] entries, [output] is [rows] by [out_num_cols]. *)
Definition shape_consistent (params : ConstMatrix T) (indices : list Z)
    (out_num_cols params_rows params_cols : Z) (output : Matrix T) : Prop :=
  0 <= params_rows /\ 0 <= out_num_cols /\
  params_cols = Z.of_nat (length indices) /\
  cdim0 params = params_rows /\ cdim1 params = params_cols /\
  Z.of_nat (length (cdata params)) = params_rows * params_cols /\
  dim0 output = params_rows /\ dim1 output = out_num_cols /\
  Z.of_nat (length (data output)) = params_rows * out_num_cols.

(** Valid destination indices: pairwise distinct, each in the range. *)
Definition valid_indices (indices : list Z) (out_num_cols : Z) : Prop :=
  NoDup indices /\ forall v, v ∈ indices -> 0 <= v < out_num_cols.

(** What the cell [(r, c)] of the output is to hold, given the inverse map:
    the pad value at a padding destination, else the cell of [params] in
    the same row and the mapped source column. *)
Definition expected (params : ConstMatrix T) (out_indices : list Z)
    (pad_elem : T) (r c : Z) : option T :=
  if zget out_indices c <? 0 then Some pad_elem
  else cdata params !! Z.to_nat (r * cdim1 params + zget out_indices c).

(** The one-row matrix holding row [r] of [m]. *)
Definition row_of (m : ConstMatrix T) (r : Z) : ConstMatrix T :=
  {| cdim0 := 1; cdim1 := cdim1 m;
     cdata := take (Z.to_nat (cdim1 m)) (drop (Z.to_nat (r * cdim1 m)) (cdata m)) |}.

End Vocabulary.

(** The two error messages. *)
Definition duplicate_msg (total unique : Z) : list piece :=
  [Str "Indices cannot contain duplicates.";
   Str " Total no. of indices: "; Num total;
   Str " != no. of unique indices: "; Num unique; Str "."].

Definition out_of_range_msg (i value bound : Z) : list piece :=
  [Str "Indices("; Num i; Str "): "; Num value;
   Str " is not in range (0, "; Num bound; Str "]."].

(** The example of the source comments. *)
Definition ex_params : ConstMatrix Z := mkConstMatrix 1 4 [11; 12; 13; 14].
Definition ex_indices : list Z := [7; 4; 2; 3].
Definition ex_output : Matrix Z := mkMatrix 1 10 (replicate 10 (-5)) [].

(** ** The loop rules *)

Section Rules.

Context {S R : Type}.

(** A loop on fuel: an invariant, a measure that every iteration lowers and
    that the fuel exceeds, and what may be said of every way out. *)
Lemma iter_rule (body : S -> result (ctl S R)) (Inv : S -> Prop)
    (m : S -> Z) (Post : result R -> Prop) :
  (forall s, Inv s ->
     match body s with
     | Done (Next s') => Inv s' /\ 0 <= m s' < m s
     | Done (Stop r) => Post (Done r)
     | Fault => Post Fault
     | OutOfFuel => Post OutOfFuel
     end) ->
  forall fuel s, Inv s -> 0 <= m s < Z.of_nat fuel -> Post (iter fuel body s).
Proof.
  intros Hbody fuel. induction fuel as [|fuel IH]; intros s Hinv Hm.
  - lia.
  - simpl. specialize (Hbody s Hinv).
    destruct (body s) as [[s'|r]| |]; simpl; try assumption.
    destruct Hbody as [Hinv' Hm']. apply IH; [assumption | lia].
Qed.

(** A counted loop: an invariant indexed by the counter. *)
Lemma for_range_rule (body : Z -> S -> result (ctl S R))
    (Inv : Z -> S -> Prop) (Post : result (ctl S R) -> Prop) (n : nat) :
  forall lo s,
  (forall i s, lo <= i < lo + Z.of_nat n -> Inv i s ->
     match body i s with
     | Done (Next s') => Inv (i + 1) s'
     | other => Post other
     end) ->
  (forall s, Inv (lo + Z.of_nat n) s -> Post (Done (Next s))) ->
  Inv lo s -> Post (for_range n lo body s).
Proof.
  induction n as [|n IH]; intros lo s Hbody Hend Hinv.
  - simpl. apply Hend. replace (lo + Z.of_nat 0) with lo by lia. assumption.
  - simpl. pose proof (Hbody lo s ltac:(lia) Hinv) as Hb.
    destruct (body lo s) as [[s'|r]| |]; simpl; try assumption.
    apply IH; try assumption.
    + intros i s0 Hi. apply Hbody. lia.
    + intros s0 Hs0. apply Hend.
      replace (lo + Z.of_nat (Datatypes.S n)) with (lo + 1 + Z.of_nat n) by lia.
      assumption.
Qed.

(** Two loops with bodies that agree run alike. *)
Lemma iter_ext (body1 body2 : S -> result (ctl S R)) :
  (forall s, body1 s = body2 s) ->
  forall fuel s, iter fuel body1 s = iter fuel body2 s.
Proof.
  intros Heq fuel. induction fuel as [|fuel IH]; intros s; simpl.
  - reflexivity.
  - rewrite Heq. destruct (body2 s) as [[s'|r]| |]; simpl; auto.
Qed.

Lemma for_range_ext (body1 body2 : Z -> S -> result (ctl S R)) :
  (forall i s, body1 i s = body2 i s) ->
  forall n lo s, for_range n lo body1 s = for_range n lo body2 s.
Proof.
  intros Heq n. induction n as [|n IH]; intros lo s; simpl.
  - reflexivity.
  - rewrite Heq. destruct (body2 lo s) as [[s'|r]| |]; simpl; auto.
Qed.

(** A counted loop on an [int]: as above, and the counter may overflow. *)
Lemma for_int_rule (body : Z -> S -> result (ctl S R))
    (Inv : Z -> S -> Prop) (Post : result (ctl S R) -> Prop) (n : nat) :
  forall lo s,
  0 <= lo ->
  (forall i s, lo <= i < lo + Z.of_nat n -> Inv i s ->
     match body i s with
     | Done (Next s') => Inv (i + 1) s'
     | other => Post other
     end) ->
  (2147483647 < lo + Z.of_nat n -> Post Fault) ->
  (forall s, Inv (lo + Z.of_nat n) s -> Post (Done (Next s))) ->
  Inv lo s -> Post (for_int n lo body s).
Proof.
  induction n as [|n IH]; intros lo s Hlo Hbody Hover Hend Hinv.
  - simpl. apply Hend. replace (lo + Z.of_nat 0) with lo by lia. assumption.
  - simpl. pose proof (Hbody lo s ltac:(lia) Hinv) as Hb.
    destruct (body lo s) as [[s'|r]| |]; simpl; try assumption.
    unfold int_add, INT_MIN, INT_MAX.
    destruct (Z.leb_spec (-2147483648) (lo + 1)); [|lia].
    destruct (Z.leb_spec (lo + 1) 2147483647); simpl.
    + apply IH; try assumption; try lia.
      * intros i s0 Hi. apply Hbody. lia.
      * intros Hbig. apply Hover. lia.
      * intros s0 Hs0. apply Hend.
        replace (lo + Z.of_nat (Datatypes.S n)) with (lo + 1 + Z.of_nat n) by lia.
        assumption.
    + apply Hover. lia.
Qed.

Lemma for_int_ext (body1 body2 : Z -> S -> result (ctl S R)) :
  (forall i s, body1 i s = body2 i s) ->
  forall n lo s, for_int n lo body1 s = for_int n lo body2 s.
Proof.
  intros Heq n. induction n as [|n IH]; intros lo s; simpl.
  - reflexivity.
  - rewrite Heq. destruct (body2 lo s) as [[s'|r]| |]; simpl; auto.
    destruct (int_add lo 1); simpl; auto.
Qed.

End Rules.

(** ** Sums of [int] *)

Lemma int_add_cases (a b : Z) :
  (-2147483648 <= a + b <= 2147483647 /\ int_add a b = Done (a + b)) \/
  (~ (-2147483648 <= a + b <= 2147483647) /\ int_add a b = Fault).
Proof.
  unfold int_add, INT_MIN, INT_MAX.
  destruct (Z.leb_spec (-2147483648) (a + b)), (Z.leb_spec (a + b) 2147483647);
    simpl; [left | right..]; split; (lia || reflexivity).
Qed.

Lemma int_add_Done (a b : Z) :
  -2147483648 <= a + b <= 2147483647 -> int_add a b = Done (a + b).
Proof. intros H. destruct (int_add_cases a b) as [[_ E]|[Hno _]]; [exact E | lia]. Qed.

Lemma unless_overflow_Done {A : Type} (bounded : Prop) (Q : A -> Prop)
    (res : result A) :
  bounded -> unless_overflow bounded Q res -> exists a, res = Done a /\ Q a.
Proof.
  intros Hb. destruct res as [a| |]; simpl; intros H; [eauto | | ]; contradiction.
Qed.

(** ** Vectors and cells *)

Lemma vec_get_Done {A : Type} (v : list A) (i : Z) (x : A) :
  vec_get v i = Done x <-> 0 <= i /\ v !! Z.to_nat i = Some x.
Proof.
  unfold vec_get. destruct (Z.ltb_spec i 0).
  - split; [discriminate | lia].
  - destruct (v !! Z.to_nat i) eqn:E; split.
    + intros [= ->]. auto.
    + intros [_ [= ->]]. reflexivity.
    + discriminate.
    + intros [_ [=]].
Qed.

Lemma vec_get_zget (v : list Z) (i : Z) :
  0 <= i < Z.of_nat (length v) -> vec_get v i = Done (zget v i).
Proof.
  intros Hi. apply vec_get_Done. split; [lia|].
  unfold zget. destruct (lookup_lt_is_Some_2 v (Z.to_nat i)) as [x ->]; [lia|].
  reflexivity.
Qed.

Lemma vec_set_Done {A : Type} (v : list A) (i : Z) (x : A) :
  0 <= i < Z.of_nat (length v) ->
  vec_set v i x = Done (<[Z.to_nat i := x]> v).
Proof.
  intros Hi. unfold vec_set.
  destruct (Z.leb_spec 0 i); [|lia]. destruct (Z.ltb_spec i (Z.of_nat (length v))); [|lia].
  reflexivity.
Qed.

Lemma zget_insert (v : list Z) (i j x : Z) :
  0 <= i < Z.of_nat (length v) -> 0 <= j ->
  zget (<[Z.to_nat i := x]> v) j = if decide (i = j) then x else zget v j.
Proof.
  intros Hi Hj. unfold zget. destruct (decide (i = j)) as [->|Hne].
  - rewrite list_lookup_insert_eq by lia. reflexivity.
  - rewrite list_lookup_insert_ne by lia. reflexivity.
Qed.

Lemma zget_replicate (n : nat) (x i : Z) :
  0 <= i < Z.of_nat n -> zget (replicate n x) i = x.
Proof.
  intros Hi. unfold zget. rewrite lookup_replicate_2 by lia. reflexivity.
Qed.

Lemma memcpy_Done {T : Type} (dst : list T) (d : Z) (src : list T) (s n : Z) :
  0 <= d -> 0 <= s -> 0 <= n ->
  d + n <= Z.of_nat (length dst) -> s + n <= Z.of_nat (length src) ->
  exists cells, memcpy dst d src s n = Done cells /\
    length cells = length dst /\
    forall k : nat,
      cells !! k = if decide (d <= Z.of_nat k < d + n)
                   then src !! Z.to_nat (s + (Z.of_nat k - d))
                   else dst !! k.
Proof.
  intros Hd Hs Hn Hdn Hsn. unfold memcpy.
  destruct (Z.leb_spec 0 d); [|lia]. destruct (Z.leb_spec 0 s); [|lia].
  destruct (Z.leb_spec 0 n); [|lia].
  destruct (Z.leb_spec (d + n) (Z.of_nat (length dst))); [|lia].
  destruct (Z.leb_spec (s + n) (Z.of_nat (length src))); [|lia].
  simpl. eexists. split; [reflexivity|]. split.
  - rewrite !length_app, !length_take, !length_drop. lia.
  - intros k. destruct (decide (d <= Z.of_nat k < d + n)) as [Hin|Hout].
    + rewrite lookup_app_r by (rewrite length_take; lia).
      rewrite length_take.
      rewrite lookup_app_l by (rewrite length_take, length_drop; lia).
      rewrite lookup_take_lt by lia. rewrite lookup_drop. f_equal. lia.
    + destruct (Z.lt_ge_cases (Z.of_nat k) d) as [Hlt|Hge].
      * rewrite lookup_app_l by (rewrite length_take; lia).
        rewrite lookup_take_lt by lia. reflexivity.
      * rewrite lookup_app_r by (rewrite length_take; lia).
        rewrite length_take.
        rewrite lookup_app_r by (rewrite length_take, length_drop; lia).
        rewrite length_take, length_drop. rewrite lookup_drop. f_equal. lia.
Qed.

(** ** Tilings *)

Lemma tiling_le (ws : list (Z * Z)) : forall lo hi, tiling lo hi ws -> lo <= hi.
Proof.
  induction ws as [|w ws IH]; simpl; intros lo hi H.
  - lia.
  - destruct H as (_ & Hn & Hrest). apply IH in Hrest. lia.
Qed.

Lemma tiling_app (ws1 ws2 : list (Z * Z)) :
  forall lo mid hi,
  tiling lo mid ws1 -> tiling mid hi ws2 -> tiling lo hi (ws1 ++ ws2).
Proof.
  induction ws1 as [|w ws1 IH]; simpl; intros lo mid hi H1 H2.
  - subst. assumption.
  - destruct H1 as (Hw & Hn & Hrest). repeat split; try assumption.
    eapply IH; eassumption.
Qed.

Lemma times_written_app (k : Z) (ws1 ws2 : list (Z * Z)) :
  times_written k (ws1 ++ ws2) = (times_written k ws1 + times_written k ws2)%nat.
Proof. unfold times_written. rewrite filter_app, length_app. reflexivity. Qed.

Lemma times_written_cons (k : Z) (w : Z * Z) (ws : list (Z * Z)) :
  times_written k (w :: ws)
  = ((if covers k w then 1 else 0) + times_written k ws)%nat.
Proof.
  unfold times_written. rewrite filter_cons.
  destruct (covers k w); destruct (decide _); simpl; congruence.
Qed.

(** Every cell inside a tiling is touched once, every cell outside never. *)
Lemma tiling_times_written (k : Z) (ws : list (Z * Z)) :
  forall lo hi, tiling lo hi ws ->
  times_written k ws = if decide (lo <= k < hi) then 1%nat else 0%nat.
Proof.
  induction ws as [|w ws IH]; simpl; intros lo hi H.
  - subst. destruct (decide _); [lia | reflexivity].
  - destruct H as (Hw & Hn & Hrest).
    rewrite times_written_cons, (IH _ _ Hrest).
    apply tiling_le in Hrest. unfold covers. destruct w as [o n]; simpl in *.
    subst o.
    destruct (Z.leb_spec lo k), (Z.ltb_spec k (lo + n)); simpl;
      repeat destruct (decide _); lia.
Qed.

(** ** The duplicate check *)

Lemma singleton_union_absorb (x : Z) (l : list Z) :
  x ∈ l -> ({[x]} ∪ list_to_set l : gset Z) = list_to_set l.
Proof.
  intros Hin. apply subseteq_union_1_L, singleton_subseteq_l, elem_of_list_to_set.
  assumption.
Qed.

Lemma size_list_to_set_le (l : list Z) :
  (size (list_to_set l : gset Z) <= length l)%nat.
Proof.
  induction l as [|x l IH].
  - rewrite list_to_set_nil, size_empty. simpl. lia.
  - rewrite list_to_set_cons. simpl length.
    destruct (decide (x ∈ l)) as [Hin|Hnin].
    + rewrite (singleton_union_absorb x l Hin). lia.
    + rewrite size_union by set_solver. rewrite size_singleton. lia.
Qed.

Lemma size_list_to_set_NoDup (l : list Z) :
  size (list_to_set l : gset Z) = length l <-> NoDup l.
Proof.
  split; [|apply size_list_to_set].
  induction l as [|x l IH]; intros Hsz.
  - constructor.
  - rewrite list_to_set_cons in Hsz. simpl length in Hsz.
    destruct (decide (x ∈ l)) as [Hin|Hnin].
    + rewrite (singleton_union_absorb x l Hin) in Hsz.
      pose proof (size_list_to_set_le l). lia.
    + rewrite size_union in Hsz by set_solver. rewrite size_singleton in Hsz.
      constructor; [assumption|]. apply IH. lia.
Qed.

(** Distinct values of the range are no more than the range holds. *)
Lemma valid_indices_length (indices : list Z) (W : Z) :
  0 <= W -> valid_indices indices W -> Z.of_nat (length indices) <= W.
Proof.
  intros HW [Hnd Hrange].
  assert (Hsub : indices ⊆+ seqZ 0 W).
  { apply NoDup_submseteq; [assumption|].
    intros v Hv. apply elem_of_seqZ. specialize (Hrange v Hv). lia. }
  apply submseteq_length in Hsub. rewrite length_seqZ in Hsub. lia.
Qed.

(** ** Lines 49-58: checking and arranging the indices *)

Lemma FastBoundsCheck_spec (index limit : Z) :
  FastBoundsCheck index limit = true <-> 0 <= index < limit.
Proof. unfold FastBoundsCheck. rewrite andb_true_iff, Z.leb_le, Z.ltb_lt. tauto. Qed.

Lemma arrange_spec (indices : list Z) (W : Z) :
  0 <= W ->
  match for_range (length indices) 0 (arrange_body indices W)
          (replicate (Z.to_nat W) (-1)) with
  | Done (Next out) =>
      (forall v, v ∈ indices -> 0 <= v < W) /\ arranged indices W out
  | Done (Stop st) =>
      exists (i : nat) (v : Z),
        indices !! i = Some v /\ ~ (0 <= v < W) /\
        (forall (j : nat) u, (j < i)%nat -> indices !! j = Some u -> 0 <= u < W) /\
        st = InvalidArgument (out_of_range_msg (Z.of_nat i) v W)
  | _ => False
  end.
Proof.
  intros HW.
  apply (for_range_rule (arrange_body indices W)
    (fun i out =>
       0 <= i /\ length out = Z.to_nat W /\
       (forall (j : nat) u, Z.of_nat j < i -> indices !! j = Some u -> 0 <= u < W) /\
       forall d, 0 <= d < W ->
         (zget out d = -1 /\ forall j : nat, Z.of_nat j < i -> indices !! j <> Some d) \/
         (0 <= zget out d < i /\ indices !! Z.to_nat (zget out d) = Some d))).
  - intros i out Hi (Hi0 & Hlen & Hpre & Hout). unfold arrange_body.
    destruct (lookup_lt_is_Some_2 indices (Z.to_nat i)) as [ind Hind]; [lia|].
    assert (Hget : vec_get indices i = Done ind) by (apply vec_get_Done; auto).
    rewrite Hget. simpl.
    destruct (FastBoundsCheck ind W) eqn:Hchk; simpl.
    + apply FastBoundsCheck_spec in Hchk.
      rewrite vec_set_Done by lia. simpl.
      split; [lia|]. split; [rewrite length_insert; assumption|]. split.
      * intros j u Hj Hju. destruct (decide (Z.of_nat j = i)) as [Hji|Hji].
        -- replace (Z.to_nat i) with j in Hind by lia. congruence.
        -- apply (Hpre j u); [lia | assumption].
      * intros d Hd. rewrite zget_insert by lia.
        destruct (decide (ind = d)) as [->|Hne].
        -- right. split; [lia|]. assumption.
        -- destruct (Hout d Hd) as [[Hm Hno]|[Hr Hsrc]].
           ++ left. split; [assumption|]. intros j Hj.
              destruct (decide (Z.of_nat j = i)) as [Hji|Hji].
              ** replace (Z.to_nat i) with j in Hind by lia. congruence.
              ** apply Hno. lia.
           ++ right. split; [lia | assumption].
    + exists (Z.to_nat i), ind. split; [assumption|]. split.
      * intros Hr. apply FastBoundsCheck_spec in Hr. congruence.
      * split.
        -- intros j u Hj. apply Hpre. lia.
        -- rewrite Z2Nat.id by lia. reflexivity.
  - intros out (_ & Hlen & Hpre & Hout). split.
    + intros v Hv. apply list_elem_of_lookup in Hv as [j Hj].
      apply (Hpre j v); [|assumption]. apply lookup_lt_Some in Hj. lia.
    + split; [assumption|]. intros d Hd.
      destruct (Hout d Hd) as [[Hm Hno]|[Hr Hsrc]].
      * left. split; [assumption|]. intros Hin.
        apply list_elem_of_lookup in Hin as [j Hj].
        apply (Hno j); [|assumption]. apply lookup_lt_Some in Hj. lia.
      * right. split; [lia | assumption].
  - split; [lia|]. split; [apply length_replicate|]. split.
    + intros j u Hj. lia.
    + intros d Hd. left. split; [apply zget_replicate; lia|]. intros j Hj. lia.
Qed.

(** ** Lines 68-93: grouping consecutive padding columns *)

(** The next sum of two [int] in the goal: it is in range, or the goal is
    the overflow case, which the sizes close. *)
Ltac int_case :=
  match goal with
  | |- context [int_add ?a ?b] =>
      destruct (int_add_cases a b) as [[? ->]|[? ->]]; cbn [rbind];
      [|simpl; unfold INT_MAX; lia]
  end.

(** Lines 75-82: the length of the padding run that starts at [c]. *)
Lemma count_pad_spec (fuel : nat) (out : list Z) (W c : Z) :
  length out = Z.to_nat W -> 0 <= c < W -> W < Z.of_nat fuel ->
  unless_overflow (W < INT_MAX)
    (fun L =>
       0 <= L /\ c + L <= W /\
       (forall k, c <= k < c + L -> zget out k < 0) /\
       (c + L < W -> 0 <= zget out (c + L)) /\
       (zget out c < 0 -> 1 <= L))
    (iter fuel (count_pad_body out W c) 0).
Proof.
  intros Hlen Hc Hfuel.
  apply (iter_rule (count_pad_body out W c)
    (fun p => 0 <= p /\ c + p < W /\ forall k, c <= k < c + p -> zget out k < 0)
    (fun p => W - (c + p))).
  - intros p (Hp & HpW & Hneg). unfold count_pad_body.
    int_case. rewrite vec_get_zget by lia. cbn [rbind].
    destruct (Z.ltb_spec (zget out (c + p)) 0) as [Hx|Hx].
    + assert (Hneg' : forall k, c <= k < c + (p + 1) -> zget out k < 0).
      { intros k Hk. destruct (decide (k = c + p)) as [->|Hne]; [assumption|].
        apply Hneg. lia. }
      int_case. int_case.
      destruct (Z.geb_spec (c + (p + 1)) W) as [Hend|Hend]; simpl.
      * repeat split; try lia; assumption.
      * repeat split; try lia; assumption.
    + simpl. repeat split; try lia; try assumption.
      intros Hc0. destruct (decide (p = 0)) as [->|Hne]; [|lia].
      replace (c + 0) with c in Hx by lia. lia.
  - repeat split; try lia.
  - lia.
Qed.

(** Lines 89-92: writing the run lengths [L, L-1, ..., 1] from [c] on. *)
Lemma fill_run_spec (fuel : nat) (cons : list Z) (W c L : Z) :
  length cons = Z.to_nat W -> 0 <= c -> 0 <= L -> c + L <= W ->
  W < Z.of_nat fuel ->
  unless_overflow (W < INT_MAX)
    (fun r =>
       exists cons', r = (cons', c + L) /\
         length cons' = Z.to_nat W /\
         forall k, 0 <= k ->
           zget cons' k = if decide (c <= k < c + L) then c + L - k else zget cons k)
    (iter fuel fill_run_body (cons, c, L)).
Proof.
  intros Hlen Hc HL HcL Hfuel.
  apply (iter_rule fill_run_body
    (fun st => let '(cons', c', p) := st in
       length cons' = Z.to_nat W /\ 0 <= p /\ c <= c' /\ c' + p = c + L /\
       forall k, 0 <= k ->
         zget cons' k = if decide (c <= k < c') then c + L - k else zget cons k)
    (fun st => st.2)).
  - intros [[cons' c'] p] (Hlen' & Hp & Hcc' & Hsum & Hval). unfold fill_run_body.
    destruct (Z.gtb_spec p 0) as [Hpos|Hzero].
    + rewrite vec_set_Done by lia. cbn [rbind]. int_case. int_case.
      simpl. repeat split; try lia.
      * rewrite length_insert. assumption.
      * intros k Hk. rewrite zget_insert by lia. rewrite (Hval k Hk).
        destruct (decide (c' = k)) as [<-|Hne]; repeat destruct (decide _); lia.
    + simpl. exists cons'. assert (p = 0) as -> by lia.
      replace (c + L) with c' by lia. split; [reflexivity|].
      split; [assumption|]. intros k Hk. rewrite (Hval k Hk).
      repeat destruct (decide _); lia.
  - repeat split; try lia. intros k Hk. destruct (decide _); [lia | reflexivity].
  - simpl. lia.
Qed.

Lemma zget_replicate_any (n : nat) (i : Z) : zget (replicate n 0) i = 0.
Proof.
  unfold zget. destruct (replicate n 0 !! Z.to_nat i) as [x|] eqn:E; [|reflexivity].
  apply lookup_replicate in E as [-> _]. reflexivity.
Qed.

(** Lines 72-93: the whole compressor.  It leaves 0 at the mapped columns,
    gives every padding column the length of the whole run that starts
    there, and returns the longest of them. *)
Lemma compress_spec (fuel : nat) (out : list Z) (W : Z) :
  length out = Z.to_nat W -> 0 <= W -> W < Z.of_nat fuel ->
  unless_overflow (W < INT_MAX)
    (fun r => runs out W r.1 r.2 /\ exact_runs out W r.1)
    (iter fuel (compress_body fuel out W) (0, replicate (Z.to_nat W) 0, 0)).
Proof.
  intros Hlen HW Hfuel.
  apply (iter_rule (compress_body fuel out W)
    (fun st => let '(c, cpc, mx) := st in
       0 <= c /\ length cpc = Z.to_nat W /\ 0 <= mx /\
       (forall c', c <= c' -> zget cpc c' = 0) /\
       (forall c', 0 <= c' < c -> c' < W ->
          (0 <= zget out c' -> zget cpc c' = 0) /\
          (zget out c' < 0 ->
             1 <= zget cpc c' <= mx /\ c' + zget cpc c' <= W /\
             (forall k, c' <= k < c' + zget cpc c' -> zget out k < 0) /\
             (c' + zget cpc c' < W -> 0 <= zget out (c' + zget cpc c')))) /\
       (mx = 0 \/
        exists c', 0 <= c' < c /\ c' < W /\ zget out c' < 0 /\ zget cpc c' = mx))
    (fun st => Z.max 0 (W - st.1.1))).
  - intros [[c cpc] mx] (Hc & Hlenc & Hmx & Hrest & Hdone & Hatt).
    unfold compress_body.
    destruct (Z.ltb_spec c W) as [HcW|HcW].
    + pose proof (count_pad_spec fuel out W c Hlen ltac:(lia) Hfuel) as Hcount.
      destruct (iter fuel (count_pad_body out W c) 0) as [L| |];
        simpl in Hcount; cbn [rbind]; [|exact Hcount|contradiction].
      destruct Hcount as (HL & HcL & Hneg & Hstop & Hone).
      pose proof (fill_run_spec fuel cpc W c L Hlenc Hc HL HcL Hfuel) as Hfill.
      destruct (iter fuel fill_run_body (cpc, c, L)) as [[cpc' c']| |];
        simpl in Hfill; cbn [rbind]; [|exact Hfill|contradiction].
      destruct Hfill as (cpc2 & [= <- ->] & Hlen' & Hval).
      int_case. simpl.
      split; [|lia]. split; [lia|]. split; [assumption|]. split.
      { destruct (Z.gtb_spec L mx); lia. }
      split; [|split].
      * intros c' Hc'. rewrite (Hval c') by lia.
        destruct (decide (c <= c' < c + L)); [lia|]. apply Hrest. lia.
      * intros c' Hc' Hc'W. rewrite (Hval c') by lia.
        destruct (decide (c <= c' < c + L)) as [Hin|Hout].
        -- split; [intros Hge; specialize (Hneg c' Hin); lia|].
           intros _. split; [destruct (Z.gtb_spec L mx); lia|]. split; [lia|]. split.
           ++ intros k Hk. apply Hneg. lia.
           ++ replace (c' + (c + L - c')) with (c + L) by lia. assumption.
        -- destruct (decide (c' = c + L)) as [->|Hne].
           ++ specialize (Hstop ltac:(lia)). split; [|lia].
              intros _. apply Hrest. lia.
           ++ destruct (Hdone c' ltac:(lia) Hc'W) as [Hm Hp].
              split; [assumption|]. intros Hpad.
              destruct (Hp Hpad) as (Hrun & Hfit & Hall & Hend).
              split; [destruct (Z.gtb_spec L mx); lia|]. auto.
      * destruct (Z.gtb_spec L mx) as [Hgt|Hle].
        -- right. exists c. split; [lia|]. split; [lia|].
           split; [apply Hneg; lia|]. rewrite (Hval c) by lia.
           destruct (decide (c <= c < c + L)); lia.
        -- destruct Hatt as [Hzero|(c' & Hc' & Hc'W & Hpad & Hval')];
             [left; assumption|].
           right. exists c'. split; [lia|]. split; [lia|]. split; [assumption|].
           rewrite (Hval c') by lia.
           destruct (decide (c <= c' < c + L)); lia.
    + simpl. split; [|split; [assumption|]].
      * split; [assumption|]. split; [assumption|]. split.
        -- intros c' Hc' Hpad.
           destruct (proj2 (Hdone c' ltac:(lia) ltac:(lia)) Hpad)
             as (Hrun & Hfit & Hall & _).
           auto.
        -- destruct Hatt as [Hzero|(c' & Hc' & Hc'W & Hpad & Hval')];
             [left; assumption|].
           right. exists c'. split; [lia|]. split; assumption.
      * intros c' Hc'. destruct (Hdone c' ltac:(lia) ltac:(lia)) as [Hm Hp].
        split; [assumption|]. intros Hpad.
        destruct (Hp Hpad) as (Hrun & Hfit & Hall & Hend).
        split; [lia|]. auto.
  - split; [lia|]. split; [apply length_replicate|]. split; [lia|]. split.
    + intros c' _. apply zget_replicate_any.
    + split; [intros c' Hc'; lia | left; reflexivity].
  - simpl. lia.
Qed.
(** ** Lines 99-130: copying, one row at a time *)

Section Copy.

Context {T : Type}.

Lemma coffset_Done (m : ConstMatrix T) (r c : Z) :
  0 <= r < cdim0 m -> 0 <= c < cdim1 m ->
  coffset m r c = Done (r * cdim1 m + c).
Proof.
  intros Hr Hc. unfold coffset.
  destruct (Z.leb_spec 0 r); [|lia]. destruct (Z.ltb_spec r (cdim0 m)); [|lia].
  destruct (Z.leb_spec 0 c); [|lia]. destruct (Z.ltb_spec c (cdim1 m)); [|lia].
  reflexivity.
Qed.

Lemma offset_Done (m : Matrix T) (r c : Z) :
  0 <= r < dim0 m -> 0 <= c < dim1 m ->
  offset m r c = Done (r * dim1 m + c).
Proof.
  intros Hr Hc. unfold offset.
  destruct (Z.leb_spec 0 r); [|lia]. destruct (Z.ltb_spec r (dim0 m)); [|lia].
  destruct (Z.leb_spec 0 c); [|lia]. destruct (Z.ltb_spec c (dim1 m)); [|lia].
  reflexivity.
Qed.

(** The cells of row [r] lie inside the buffer. *)
Lemma row_slab (rows W r : Z) :
  0 <= r < rows -> 0 <= W -> 0 <= r * W /\ r * W + W <= rows * W.
Proof. intros Hr HW. nia. Qed.

(** A cell of an earlier row lies before the rows that follow. *)
Lemma cell_of_row (W i r c : Z) :
  0 <= r < i -> 0 <= c < W -> 0 <= r * W + c < i * W.
Proof. intros Hr Hc. nia. Qed.

Lemma memcpy_to_Done (o : Matrix T) (r c : Z) (src : list T) (s n : Z) :
  0 <= r < dim0 o -> 0 <= c -> 1 <= n -> c + n <= dim1 o ->
  Z.of_nat (length (data o)) = dim0 o * dim1 o ->
  0 <= s -> s + n <= Z.of_nat (length src) ->
  exists o', memcpy_to o r c src s n = Done o' /\
    dim0 o' = dim0 o /\ dim1 o' = dim1 o /\
    length (data o') = length (data o) /\
    writes o' = writes o ++ [(r * dim1 o + c, n)] /\
    forall k : nat,
      data o' !! k =
        if decide (r * dim1 o + c <= Z.of_nat k < r * dim1 o + c + n)
        then src !! Z.to_nat (s + (Z.of_nat k - (r * dim1 o + c)))
        else data o !! k.
Proof.
  intros Hr Hc Hn Hcn Hlen Hs Hsn. unfold memcpy_to.
  rewrite offset_Done by lia. simpl.
  destruct (row_slab (dim0 o) (dim1 o) r) as [Hlo Hhi]; [lia | lia |].
  destruct (memcpy_Done (data o) (r * dim1 o + c) src s n)
    as (cells & -> & Hlen' & Hcells); try lia.
  simpl. eexists. split; [reflexivity|]. simpl. auto.
Qed.

Variables (params : ConstMatrix T) (indices out cpc : list Z) (pad_elem : T).
Variables (W rows mx : Z).

Hypothesis Harr : arranged indices W out.
Hypothesis Hruns : runs out W cpc mx.
Hypothesis HW : 0 <= W.
Hypothesis Hp0 : cdim0 params = rows.
Hypothesis Hp1 : cdim1 params = Z.of_nat (length indices).
Hypothesis Hplen : Z.of_nat (length (cdata params)) = rows * Z.of_nat (length indices).

(** One row: the cells of the row are set to what is expected, nothing else
    changes, and the writes tile the row. *)
Lemma copy_row_spec (fuel : nat) (r : Z) (out0 : Matrix T) :
  W < Z.of_nat fuel -> 0 <= r < rows ->
  dim0 out0 = rows -> dim1 out0 = W ->
  Z.of_nat (length (data out0)) = rows * W ->
  unless_overflow (W < INT_MAX)
    (fun out' =>
       dim0 out' = dim0 out0 /\ dim1 out' = dim1 out0 /\
       length (data out') = length (data out0) /\
       (forall k : nat,
          data out' !! k =
            if decide (r * W <= Z.of_nat k < r * W + W)
            then expected params out pad_elem r (Z.of_nat k - r * W)
            else data out0 !! k) /\
       exists ws, writes out' = writes out0 ++ ws /\
         tiling (r * W) (r * W + W) ws /\ Forall (walk_step out cpc W r) ws)
    (iter fuel (copy_body params out cpc (replicate (Z.to_nat mx) pad_elem) W r)
       (0, out0)).
Proof.
  intros Hfuel Hr Hd0 Hd1 Hlen0.
  destruct Harr as [Houtlen Hmap]. destruct Hruns as (Hcpclen & Hmx & Hrun & _).
  apply (iter_rule (copy_body params out cpc (replicate (Z.to_nat mx) pad_elem) W r)
    (fun st => let '(col, o) := st in
       0 <= col <= W /\ dim0 o = rows /\ dim1 o = W /\
       length (data o) = length (data out0) /\
       (forall k : nat,
          data o !! k =
            if decide (r * W <= Z.of_nat k < r * W + col)
            then expected params out pad_elem r (Z.of_nat k - r * W)
            else data out0 !! k) /\
       exists ws, writes o = writes out0 ++ ws /\
         tiling (r * W) (r * W + col) ws /\ Forall (walk_step out cpc W r) ws)
    (fun st => W - st.1)).
  - intros [col o] (Hcol & Ho0 & Ho1 & Holen & Hcells & ws & Hws & Htile & Hsteps).
    unfold copy_body. destruct (Z.ltb_spec col W) as [HcW|HcW].
    + int_case.
      assert (Hpre : (if col + 1 <? W
                      then rbind (vec_get out (col + 1)) (fun nxt => Done (nxt >=? 0))
                      else Done false) = Done
                     (if col + 1 <? W then zget out (col + 1) >=? 0 else false)).
      { destruct (Z.ltb_spec (col + 1) W); [|reflexivity].
        rewrite vec_get_zget by lia. reflexivity. }
      rewrite Hpre. clear Hpre. cbn [rbind].
      rewrite vec_get_zget by lia. cbn [rbind].
      destruct (Z.geb_spec (zget out col) 0) as [Hsrc|Hsrc].
      * destruct (Hmap col ltac:(lia)) as [[Hm _]|[_ Hsrcof]]; [lia|].
        apply lookup_lt_Some in Hsrcof.
        rewrite coffset_Done by lia. simpl.
        destruct (row_slab rows (Z.of_nat (length indices)) r) as [Hlo Hhi]; [lia|lia|].
        destruct (memcpy_to_Done o r col (cdata params)
                    (r * cdim1 params + zget out col) 1)
          as (o' & -> & Ho'0 & Ho'1 & Ho'len & Ho'ws & Ho'cells); try lia.
        cbn [rbind].
        simpl. split; [|lia]. split; [lia|]. split; [congruence|].
        split; [congruence|]. split; [congruence|]. split.
        -- intros k. rewrite Ho'cells, Ho1, Hcells.
           destruct (decide (r * W + col <= Z.of_nat k < r * W + col + 1)) as [Hk|Hk].
           ++ destruct (decide (r * W <= Z.of_nat k < r * W + (col + 1))); [|lia].
              unfold expected.
              replace (Z.of_nat k - r * W) with col by lia.
              destruct (Z.ltb_spec (zget out col) 0); [lia|].
              f_equal. lia.
           ++ repeat destruct (decide _); try lia; reflexivity.
        -- exists (ws ++ [(r * W + col, 1)]). split; [|split].
           ++ rewrite Ho'ws, Hws, Ho1, <- app_assoc. reflexivity.
           ++ eapply tiling_app; [exact Htile|]. simpl. lia.
           ++ apply Forall_app. split; [assumption|]. apply Forall_singleton.
              unfold walk_step. simpl.
              replace (r * W + col - r * W) with col by lia.
              split; [lia|]. left. split; [lia | reflexivity].
      * destruct (Hrun col ltac:(lia) Hsrc) as (Hn & Hfit & Hall).
        rewrite vec_get_zget by lia. simpl.
        destruct (memcpy_to_Done o r col (replicate (Z.to_nat mx) pad_elem) 0 (zget cpc col))
          as (o' & -> & Ho'0 & Ho'1 & Ho'len & Ho'ws & Ho'cells); try lia.
        { rewrite length_replicate. lia. }
        cbn [rbind]. int_case.
        simpl. split; [|lia]. split; [lia|]. split; [congruence|].
        split; [congruence|]. split; [congruence|]. split.
        -- intros k. rewrite Ho'cells, Ho1, Hcells.
           destruct (decide (r * W + col <= Z.of_nat k < r * W + col + zget cpc col))
             as [Hk|Hk].
           ++ destruct (decide (r * W <= Z.of_nat k < r * W + (col + zget cpc col)));
                [|lia].
              unfold expected.
              rewrite lookup_replicate_2 by lia.
              destruct (Z.ltb_spec (zget out (Z.of_nat k - r * W)) 0) as [_|Hge];
                [reflexivity|].
              specialize (Hall (Z.of_nat k - r * W) ltac:(lia)). lia.
           ++ repeat destruct (decide _); try lia; reflexivity.
        -- exists (ws ++ [(r * W + col, zget cpc col)]). split; [|split].
           ++ rewrite Ho'ws, Hws, Ho1, <- app_assoc. reflexivity.
           ++ eapply tiling_app; [exact Htile|]. simpl. lia.
           ++ apply Forall_app. split; [assumption|]. apply Forall_singleton.
              unfold walk_step. simpl.
              replace (r * W + col - r * W) with col by lia.
              split; [lia|]. right. split; [lia | reflexivity].
    + assert (col = W) as -> by lia.
      simpl. split; [congruence|]. split; [congruence|].
      split; [assumption|]. split; [assumption|]. exists ws. auto.
  - split; [lia|]. split; [assumption|]. split; [assumption|].
    split; [reflexivity|]. split.
    + intros k. destruct (decide _); [lia | reflexivity].
    + exists []. split; [rewrite app_nil_r; reflexivity|].
      split; [simpl; lia | constructor].
  - simpl. lia.
Qed.

(** All rows: every cell holds what is expected, and the writes of the call,
    row after row, tile the rows and so the whole buffer. *)
Lemma copy_rows_spec (fuel : nat) (out0 : Matrix T) :
  W < Z.of_nat fuel -> 0 <= rows ->
  dim0 out0 = rows -> dim1 out0 = W ->
  Z.of_nat (length (data out0)) = rows * W ->
  unless_overflow (W < INT_MAX /\ rows <= INT_MAX)
    (fun c =>
       exists out', c = Next out' /\
         dim0 out' = rows /\ dim1 out' = W /\
         length (data out') = length (data out0) /\
         (forall r c, 0 <= r < rows -> 0 <= c < W ->
            data out' !! Z.to_nat (r * W + c) = expected params out pad_elem r c) /\
         exists per_row : list (list (Z * Z)),
           writes out' = writes out0 ++ concat per_row /\
           Z.of_nat (length per_row) = rows /\
           (forall (r : nat) ws, per_row !! r = Some ws ->
              tiling (Z.of_nat r * W) (Z.of_nat r * W + W) ws /\
              Forall (walk_step out cpc W (Z.of_nat r)) ws) /\
           tiling 0 (rows * W) (concat per_row))
    (for_int (Z.to_nat rows) 0
       (row_body fuel params out cpc (replicate (Z.to_nat mx) pad_elem) W) out0).
Proof.
  intros Hfuel Hrows Hd0 Hd1 Hlen0.
  pose (Inv := fun (i : Z) (o : Matrix T) =>
    dim0 o = rows /\ dim1 o = W /\ length (data o) = length (data out0) /\
    (forall r c, 0 <= r < i -> 0 <= c < W ->
       data o !! Z.to_nat (r * W + c) = expected params out pad_elem r c) /\
    exists per_row : list (list (Z * Z)),
      writes o = writes out0 ++ concat per_row /\
      Z.of_nat (length per_row) = i /\
      (forall (r : nat) ws, per_row !! r = Some ws ->
         tiling (Z.of_nat r * W) (Z.of_nat r * W + W) ws /\
         Forall (walk_step out cpc W (Z.of_nat r)) ws) /\
      tiling 0 (i * W) (concat per_row)).
  apply (for_int_rule (row_body fuel params out cpc (replicate (Z.to_nat mx) pad_elem) W)
           Inv); [lia| | | |].
  - intros i o Hi (Ho0 & Ho1 & Holen & Hcells & per_row & Hws & Hn & Hrow & Hall).
    unfold row_body.
    pose proof (copy_row_spec fuel i o Hfuel ltac:(lia) Ho0 Ho1 ltac:(lia)) as Hwalk.
    destruct (iter fuel _ (0, o)) as [o'| |]; simpl in Hwalk; cbn [rbind];
      [|simpl; tauto|contradiction].
    destruct Hwalk as (Ho'0 & Ho'1 & Ho'len & Ho'cells & ws & Ho'ws & Htile & Hsteps).
    split; [congruence|]. split; [congruence|]. split; [congruence|]. split.
    + intros r c Hr Hc. rewrite Ho'cells.
      destruct (decide (r = i)) as [->|Hne].
      * pose proof (cell_of_row W (i + 1) i c ltac:(lia) Hc).
        destruct (decide _) as [_|Hno]; [|lia]. f_equal. lia.
      * pose proof (cell_of_row W i r c ltac:(lia) Hc).
        destruct (decide _) as [Hyes|_]; [lia|]. apply Hcells; lia.
    + exists (per_row ++ [ws]). rewrite concat_app. simpl. rewrite app_nil_r.
      split; [rewrite Ho'ws, Hws, <- app_assoc; reflexivity|].
      split; [rewrite length_app; simpl; lia|]. split.
      * intros r ws' Hr. apply lookup_app_Some in Hr as [Hr|[Hge Hr]].
        -- eauto.
        -- apply list_lookup_singleton_Some in Hr as [Hr ->].
           replace (Z.of_nat r) with i by lia. split; assumption.
      * eapply tiling_app; [exact Hall|].
        replace ((i + 1) * W) with (i * W + W) by lia. assumption.
  - intros Hbig. simpl. unfold INT_MAX. lia.
  - intros o Ho. simpl. exists o. split; [reflexivity|].
    replace (0 + Z.of_nat (Z.to_nat rows)) with rows in Ho by lia. assumption.
  - split; [assumption|]. split; [assumption|]. split; [reflexivity|]. split.
    + intros r c Hr. lia.
    + exists []. simpl. split; [rewrite app_nil_r; reflexivity|].
      split; [reflexivity|]. split; [|reflexivity].
      intros r ws Hr. rewrite lookup_nil in Hr. discriminate.
Qed.

End Copy.

(** The compressor under the bound on the width. *)
Lemma compress_runs (fuel : nat) (out : list Z) (W : Z) :
  length out = Z.to_nat W -> 0 <= W -> W < Z.of_nat fuel -> W < INT_MAX ->
  exists cpc mx,
    iter fuel (compress_body fuel out W) (0, replicate (Z.to_nat W) 0, 0)
      = Done (cpc, mx) /\
    runs out W cpc mx.
Proof.
  intros Hlen HW Hfuel Hb.
  destruct (unless_overflow_Done _ _ _ Hb (compress_spec fuel out W Hlen HW Hfuel))
    as ([cpc mx] & Hcomp & Hruns & _).
  eauto.
Qed.

Lemma compress_exact (fuel : nat) (out : list Z) (W : Z) :
  length out = Z.to_nat W -> 0 <= W -> W < Z.of_nat fuel -> W < INT_MAX ->
  exists cpc mx,
    iter fuel (compress_body fuel out W) (0, replicate (Z.to_nat W) 0, 0)
      = Done (cpc, mx) /\
    exact_runs out W cpc.
Proof.
  intros Hlen HW Hfuel Hb.
  destruct (unless_overflow_Done _ _ _ Hb (compress_spec fuel out W Hlen HW Hfuel))
    as ([cpc mx] & Hcomp & _ & Hexact).
  eauto.
Qed.

(** ** Lines 22-133: the function, stage by stage *)

Section Stages.

Context {T : Type}.
Variables (fuel : nat) (params : ConstMatrix T) (indices : list Z).
Variables (W : Z) (pad_elem : T) (rows cols : Z) (output : Matrix T).

(** Lines 32-38: duplicates stop the call at once. *)
Lemma CountAndCopy_duplicate :
  ~ NoDup indices ->
  CountAndCopy fuel params indices W pad_elem rows cols output
  = Done (InvalidArgument
            (duplicate_msg (Z.of_nat (length indices))
               (Z.of_nat (size (list_to_set indices : gset Z)))),
          output).
Proof.
  intros Hdup. unfold CountAndCopy.
  destruct (Z.eqb_spec (Z.of_nat (size (list_to_set indices : gset Z)))
              (Z.of_nat (length indices))) as [Heq|Hne].
  - exfalso. apply Hdup. apply size_list_to_set_NoDup. lia.
  - reflexivity.
Qed.

(** Lines 49-58: without duplicates, the first index out of the range stops
    the call. *)
Lemma CountAndCopy_out_of_range (i : nat) (v : Z) :
  NoDup indices -> 0 <= W ->
  indices !! i = Some v -> ~ (0 <= v < W) ->
  (forall (j : nat) u, (j < i)%nat -> indices !! j = Some u -> 0 <= u < W) ->
  CountAndCopy fuel params indices W pad_elem rows cols output
  = Done (InvalidArgument (out_of_range_msg (Z.of_nat i) v W), output).
Proof.
  intros Hnd HW Hi Hbad Hfirst. unfold CountAndCopy.
  apply size_list_to_set_NoDup in Hnd. rewrite Hnd, Z.eqb_refl. simpl negb. cbv iota.
  unfold vector_fill. destruct (Z.ltb_spec W 0); [lia|]. cbn [rbind].
  rewrite Nat2Z.id. pose proof (arrange_spec indices W HW) as Harr.
  destruct (for_range _ _ _ _) as [[out|st]| |]; try contradiction.
  - destruct Harr as [Hall _]. exfalso. apply Hbad, Hall.
    apply list_elem_of_lookup. eauto.
  - destruct Harr as (i' & v' & Hi' & Hbad' & Hfirst' & ->). cbn [rbind].
    destruct (lt_eq_lt_dec i i') as [[Hlt|Heq]|Hgt].
    + exfalso. apply Hbad. eapply Hfirst'; eassumption.
    + subst i'. replace v' with v by congruence. reflexivity.
    + exfalso. apply Hbad'. eapply Hfirst; eassumption.
Qed.

End Stages.

(** Lines 60-130: valid indices take the call through the arranging loop to
    the compressor; when the compressor returns, the call goes on to the row
    loop with the inverse map arranged and the padding runs grouped.  Both
    depend on the indices and the width alone. *)
Lemma CountAndCopy_stages {T : Type} (fuel : nat) (indices : list Z) (W : Z) :
  valid_indices indices W -> 0 <= W -> W < Z.of_nat fuel ->
  exists out,
    for_range (length indices) 0 (arrange_body indices W)
      (replicate (Z.to_nat W) (-1)) = Done (Next out) /\
    arranged indices W out /\
    match iter fuel (compress_body fuel out W) (0, replicate (Z.to_nat W) 0, 0) with
    | Done (cpc, mx) =>
        runs out W cpc mx /\ exact_runs out W cpc /\
        forall (params : ConstMatrix T) (pad_elem : T) (rows cols : Z)
               (output : Matrix T),
          CountAndCopy fuel params indices W pad_elem rows cols output
          = rbind (for_int (Z.to_nat rows) 0
                     (row_body fuel params out cpc
                        (replicate (Z.to_nat mx) pad_elem) W) output)
              (fun r => match r with
                        | Next output' => Done (OK, output')
                        | Stop e => match e with end
                        end)
    | Fault =>
        ~ W < INT_MAX /\
        forall (params : ConstMatrix T) (pad_elem : T) (rows cols : Z)
               (output : Matrix T),
          CountAndCopy fuel params indices W pad_elem rows cols output = Fault
    | OutOfFuel => False
    end.
Proof.
  intros [Hnd Hrange] HW Hfuel.
  pose proof (arrange_spec indices W HW) as Harr.
  destruct (for_range (length indices) 0 (arrange_body indices W)
              (replicate (Z.to_nat W) (-1))) as [[out|st]| |] eqn:Hfor;
    try contradiction.
  - destruct Harr as [_ Harr]. exists out. split; [reflexivity|].
    split; [assumption|].
    assert (Hhead : forall (params : ConstMatrix T) (pad_elem : T) (rows cols : Z)
                      (output : Matrix T),
              CountAndCopy fuel params indices W pad_elem rows cols output
              = rbind (iter fuel (compress_body fuel out W)
                         (0, replicate (Z.to_nat W) 0, 0))
                  (fun compressed =>
                     let '(cpc, mx) := compressed in
                     rbind (for_int (Z.to_nat rows) 0
                              (row_body fuel params out cpc
                                 (replicate (Z.to_nat mx) pad_elem) W) output)
                       (fun r => match r with
                                 | Next output' => Done (OK, output')
                                 | Stop e => match e with end
                                 end))).
    { intros params pad_elem rows cols output. unfold CountAndCopy.
      apply size_list_to_set_NoDup in Hnd. rewrite Hnd, Z.eqb_refl.
      simpl negb. cbv iota.
      unfold vector_fill. destruct (Z.ltb_spec W 0); [lia|]. cbn [rbind].
      rewrite Nat2Z.id, Hfor. cbn [rbind]. reflexivity. }
    pose proof (compress_spec fuel out W (proj1 Harr) HW Hfuel) as Hcomp.
    destruct (iter fuel (compress_body fuel out W) (0, replicate (Z.to_nat W) 0, 0))
      as [[cpc mx]| |]; simpl in Hcomp.
    + destruct Hcomp as [Hruns Hexact]. split; [assumption|]. split; [assumption|].
      intros. rewrite Hhead. reflexivity.
    + split; [assumption|]. intros. rewrite Hhead. reflexivity.
    + contradiction.
  - destruct Harr as (i & v & Hi & Hbad & _). exfalso. apply Hbad, Hrange.
    apply list_elem_of_lookup. eauto.
Qed.

(** The same under the bound on the width. *)
Lemma CountAndCopy_valid {T : Type} (fuel : nat) (indices : list Z) (W : Z) :
  valid_indices indices W -> 0 <= W -> W < Z.of_nat fuel -> W < INT_MAX ->
  exists out cpc mx,
    for_range (length indices) 0 (arrange_body indices W)
      (replicate (Z.to_nat W) (-1)) = Done (Next out) /\
    iter fuel (compress_body fuel out W) (0, replicate (Z.to_nat W) 0, 0)
      = Done (cpc, mx) /\
    arranged indices W out /\ runs out W cpc mx /\
    forall (params : ConstMatrix T) (pad_elem : T) (rows cols : Z)
           (output : Matrix T),
      CountAndCopy fuel params indices W pad_elem rows cols output
      = rbind (for_int (Z.to_nat rows) 0
                 (row_body fuel params out cpc
                    (replicate (Z.to_nat mx) pad_elem) W) output)
          (fun r => match r with
                    | Next output' => Done (OK, output')
                    | Stop e => match e with end
                    end).
Proof.
  intros Hvalid HW Hfuel Hb.
  destruct (CountAndCopy_stages (T:=T) fuel indices W Hvalid HW Hfuel)
    as (out & Hfor & Harr & Hstage).
  destruct (iter fuel (compress_body fuel out W) (0, replicate (Z.to_nat W) 0, 0))
    as [[cpc mx]| |] eqn:Hcomp.
  - destruct Hstage as (Hruns & _ & Heq). exists out, cpc, mx. auto.
  - destruct Hstage as [Hno _]. contradiction.
  - contradiction.
Qed.

(** ** The call on valid input *)

Section Valid.

Context {T : Type}.

Lemma mat_get_lookup (o : Matrix T) (r c : Z) (x : T) :
  0 <= r < dim0 o -> 0 <= c < dim1 o ->
  data o !! Z.to_nat (r * dim1 o + c) = Some x -> mat_get o r c = Done x.
Proof.
  intros Hr Hc Hx. unfold mat_get. rewrite offset_Done by assumption. simpl.
  apply vec_get_Done. split; [nia | assumption].
Qed.

Lemma cmat_get_lookup (m : ConstMatrix T) (r c : Z) (x : T) :
  0 <= r < cdim0 m -> 0 <= c < cdim1 m ->
  cdata m !! Z.to_nat (r * cdim1 m + c) = Some x -> cmat_get m r c = Done x.
Proof.
  intros Hr Hc Hx. unfold cmat_get. rewrite coffset_Done by assumption. simpl.
  apply vec_get_Done. split; [nia | assumption].
Qed.

Lemma expected_mapped (params : ConstMatrix T) (indices out : list Z)
    (W : Z) (pad_elem : T) (r c : Z) (src : nat) :
  arranged indices W out -> NoDup indices -> 0 <= c < W ->
  indices !! src = Some c ->
  expected params out pad_elem r c
  = cdata params !! Z.to_nat (r * cdim1 params + Z.of_nat src).
Proof.
  intros [_ Hmap] Hnd Hc Hsrc. unfold expected.
  destruct (Hmap c Hc) as [[_ Hno]|[Hge Hof]].
  - exfalso. apply Hno. apply list_elem_of_lookup. eauto.
  - destruct (Z.ltb_spec (zget out c) 0); [lia|].
    assert (Z.to_nat (zget out c) = src) by (eapply NoDup_lookup; eassumption).
    do 2 f_equal. lia.
Qed.

Lemma expected_unmapped (params : ConstMatrix T) (indices out : list Z)
    (W : Z) (pad_elem : T) (r c : Z) :
  arranged indices W out -> 0 <= c < W -> c ∉ indices ->
  expected params out pad_elem r c = Some pad_elem.
Proof.
  intros [_ Hmap] Hc Hno. unfold expected.
  destruct (Hmap c Hc) as [[Hm _]|[_ Hof]].
  - rewrite Hm. reflexivity.
  - exfalso. apply Hno. apply list_elem_of_lookup. eauto.
Qed.

Variables (fuel : nat) (params : ConstMatrix T) (indices : list Z).
Variables (W : Z) (pad_elem : T) (rows cols : Z) (output : Matrix T).

Hypothesis Hshape : shape_consistent params indices W rows cols output.
Hypothesis Hvalid : valid_indices indices W.
Hypothesis Hfuel : W < Z.of_nat fuel.

(** What the call comes to: unless an [int] overflows, which sizes within
    the bounds exclude, it returns [OK]; the buffer then keeps its shape,
    holds what is expected in every cell, and has been written row by row
    in tilings. *)
Lemma CountAndCopy_outcome :
  exists out,
    for_range (length indices) 0 (arrange_body indices W)
      (replicate (Z.to_nat W) (-1)) = Done (Next out) /\
    arranged indices W out /\
    unless_overflow (W < INT_MAX /\ rows <= INT_MAX)
      (fun r =>
         exists cpc mx out',
           r = (OK, out') /\
           iter fuel (compress_body fuel out W) (0, replicate (Z.to_nat W) 0, 0)
             = Done (cpc, mx) /\
           runs out W cpc mx /\
           dim0 out' = rows /\ dim1 out' = W /\
           length (data out') = length (data output) /\
           (forall r c, 0 <= r < rows -> 0 <= c < W ->
              data out' !! Z.to_nat (r * W + c) = expected params out pad_elem r c) /\
           exists per_row : list (list (Z * Z)),
             writes out' = writes output ++ concat per_row /\
             Z.of_nat (length per_row) = rows /\
             (forall (r : nat) ws, per_row !! r = Some ws ->
                tiling (Z.of_nat r * W) (Z.of_nat r * W + W) ws /\
                Forall (walk_step out cpc W (Z.of_nat r)) ws) /\
             tiling 0 (rows * W) (concat per_row))
      (CountAndCopy fuel params indices W pad_elem rows cols output).
Proof.
  destruct Hshape as (Hrows & HW & Hcols & Hp0 & Hp1 & Hplen & Ho0 & Ho1 & Holen).
  subst cols.
  destruct (CountAndCopy_stages (T:=T) fuel indices W Hvalid HW Hfuel)
    as (out & Hfor & Harr & Hstage).
  exists out. split; [assumption|]. split; [assumption|].
  destruct (iter fuel (compress_body fuel out W) (0, replicate (Z.to_nat W) 0, 0))
    as [[cpc mx]| |] eqn:Hcomp.
  - destruct Hstage as (Hruns & _ & ->).
    pose proof (copy_rows_spec params indices out cpc pad_elem W rows mx
                  Harr Hruns HW Hp0 Hp1 Hplen fuel output Hfuel Hrows Ho0 Ho1 Holen)
      as Hloop.
    destruct (for_int _ _ _ _) as [c| |]; simpl in Hloop; cbn [rbind].
    + destruct Hloop as (out' & -> & Hrest). simpl.
      exists cpc, mx, out'. split; [reflexivity|]. split; [reflexivity|].
      split; [assumption|]. exact Hrest.
    + exact Hloop.
    + contradiction.
  - destruct Hstage as [Hno ->]. simpl. tauto.
  - contradiction.
Qed.

Hypothesis HboundW : W < INT_MAX.
Hypothesis Hboundrows : rows <= INT_MAX.

(** Within the bounds the call succeeds. *)
Lemma CountAndCopy_spec :
  exists out cpc mx out',
    for_range (length indices) 0 (arrange_body indices W)
      (replicate (Z.to_nat W) (-1)) = Done (Next out) /\
    iter fuel (compress_body fuel out W) (0, replicate (Z.to_nat W) 0, 0)
      = Done (cpc, mx) /\
    arranged indices W out /\ runs out W cpc mx /\
    CountAndCopy fuel params indices W pad_elem rows cols output = Done (OK, out') /\
    dim0 out' = rows /\ dim1 out' = W /\
    length (data out') = length (data output) /\
    (forall r c, 0 <= r < rows -> 0 <= c < W ->
       data out' !! Z.to_nat (r * W + c) = expected params out pad_elem r c) /\
    exists per_row : list (list (Z * Z)),
      writes out' = writes output ++ concat per_row /\
      Z.of_nat (length per_row) = rows /\
      (forall (r : nat) ws, per_row !! r = Some ws ->
         tiling (Z.of_nat r * W) (Z.of_nat r * W + W) ws /\
         Forall (walk_step out cpc W (Z.of_nat r)) ws) /\
      tiling 0 (rows * W) (concat per_row).
Proof.
  destruct CountAndCopy_outcome as (out & Hfor & Harr & Hout).
  apply unless_overflow_Done in Hout as (r & Hrun & cpc & mx & out' & -> & Hrest);
    [|split; assumption].
  destruct Hrest as (Hcomp & Hruns & Hrest).
  exists out, cpc, mx, out'. split; [assumption|]. split; [assumption|].
  split; [assumption|]. split; [assumption|]. split; [assumption|]. exact Hrest.
Qed.

(** The cells of an inverse map's expectation, in terms of the indices. *)
Lemma cells_by_indices (out : list Z) (out' : Matrix T) :
  arranged indices W out ->
  dim0 out' = rows -> dim1 out' = W ->
  (forall r c, 0 <= r < rows -> 0 <= c < W ->
     data out' !! Z.to_nat (r * W + c) = expected params out pad_elem r c) ->
  forall r c, 0 <= r < rows -> 0 <= c < W ->
    (forall src : nat, indices !! src = Some c ->
       exists v, cmat_get params r (Z.of_nat src) = Done v /\
                 mat_get out' r c = Done v) /\
    (c ∉ indices -> mat_get out' r c = Done pad_elem).
Proof.
  intros Harr Hd0 Hd1 Hcells.
  destruct Hshape as (Hrows & HW & Hcols & Hp0 & Hp1 & Hplen & Ho0 & Ho1 & Holen).
  destruct Hvalid as [Hnd Hrange].
  intros r c Hr Hc. specialize (Hcells r c Hr Hc). split.
  - intros src Hsrc.
    rewrite (expected_mapped params indices out W pad_elem r c src) in Hcells
      by assumption.
    pose proof (lookup_lt_Some _ _ _ Hsrc) as Hlt.
    destruct (lookup_lt_is_Some_2 (cdata params)
                (Z.to_nat (r * cdim1 params + Z.of_nat src))) as [v Hv]; [nia|].
    exists v. split.
    + apply cmat_get_lookup; [lia | lia | assumption].
    + apply mat_get_lookup; [lia | lia |]. rewrite Hd1, Hcells. assumption.
  - intros Hno.
    rewrite (expected_unmapped params indices out W pad_elem r c) in Hcells
      by assumption.
    apply mat_get_lookup; [lia | lia |]. rewrite Hd1. assumption.
Qed.

(** The same, cell by cell, in terms of the indices. *)
Lemma CountAndCopy_cells :
  exists out',
    CountAndCopy fuel params indices W pad_elem rows cols output = Done (OK, out') /\
    dim0 out' = rows /\ dim1 out' = W /\
    length (data out') = length (data output) /\
    forall r c, 0 <= r < rows -> 0 <= c < W ->
      (forall src : nat, indices !! src = Some c ->
         exists v, cmat_get params r (Z.of_nat src) = Done v /\
                   mat_get out' r c = Done v) /\
      (c ∉ indices -> mat_get out' r c = Done pad_elem).
Proof.
  destruct CountAndCopy_spec
    as (out & cpc & mx & out' & _ & _ & Harr & _ & Hrun & Hd0 & Hd1 & Hlen & Hcells & _).
  exists out'. split; [assumption|]. split; [assumption|]. split; [assumption|].
  split; [assumption|]. apply (cells_by_indices out); assumption.
Qed.

End Valid.

(** Whatever the sizes: when the call on valid input returns [OK], the
    buffer holds the cells as the indices say. *)
Lemma CountAndCopy_cells_of {T : Type} (fuel : nat) (params : ConstMatrix T)
    (indices : list Z) (W : Z) (pad_elem : T) (rows cols : Z)
    (output out' : Matrix T) :
  shape_consistent params indices W rows cols output ->
  valid_indices indices W ->
  W < Z.of_nat fuel ->
  CountAndCopy fuel params indices W pad_elem rows cols output = Done (OK, out') ->
  dim0 out' = rows /\ dim1 out' = W /\
  length (data out') = length (data output) /\
  forall r c, 0 <= r < rows -> 0 <= c < W ->
    (forall src : nat, indices !! src = Some c ->
       exists v, cmat_get params r (Z.of_nat src) = Done v /\
                 mat_get out' r c = Done v) /\
    (c ∉ indices -> mat_get out' r c = Done pad_elem).
Proof.
  intros Hshape Hvalid Hfuel Hrun.
  destruct (CountAndCopy_outcome fuel params indices W pad_elem rows cols output
              Hshape Hvalid Hfuel) as (out & _ & Harr & Hout).
  rewrite Hrun in Hout. simpl in Hout.
  destruct Hout as (cpc & mx & o & [= <-] & _ & _ & Hd0 & Hd1 & Hlen & Hcells & _).
  split; [assumption|]. split; [assumption|]. split; [assumption|].
  eapply cells_by_indices; eassumption.
Qed.

(** ** The call on invalid input *)

(** Indices without duplicates are valid, or have a first entry out of the
    range. *)
Lemma validation_cases (indices : list Z) (W : Z) :
  0 <= W -> NoDup indices ->
  valid_indices indices W \/
  exists (i : nat) (v : Z),
    indices !! i = Some v /\ ~ (0 <= v < W) /\
    forall (j : nat) u, (j < i)%nat -> indices !! j = Some u -> 0 <= u < W.
Proof.
  intros HW Hnd. pose proof (arrange_spec indices W HW) as Harr.
  destruct (for_range _ _ _ _) as [[out|st]| |]; try contradiction.
  - left. split; [assumption | apply Harr].
  - right. destruct Harr as (i & v & Hi & Hbad & Hfirst & _). eauto.
Qed.

(** A negative width is no column count: without duplicates the call then
    dies in the constructor of [out_indices] (line 40), before the range
    loop.  The statements below take the width to be a count. *)
Lemma CountAndCopy_negative_width {T : Type} (fuel : nat) (params : ConstMatrix T)
    (indices : list Z) (W : Z) (pad_elem : T) (rows cols : Z) (output : Matrix T) :
  NoDup indices -> W < 0 ->
  CountAndCopy fuel params indices W pad_elem rows cols output = Fault.
Proof.
  intros Hnd HW. unfold CountAndCopy.
  apply size_list_to_set_NoDup in Hnd. rewrite Hnd, Z.eqb_refl. simpl negb. cbv iota.
  unfold vector_fill. destruct (Z.ltb_spec W 0); [reflexivity | lia].
Qed.

(** A returned failure is one of the two of the validation, and the buffer
    comes back as it went in. *)
Lemma CountAndCopy_failure_inv {T : Type} (fuel : nat) (params : ConstMatrix T)
    (indices : list Z) (W : Z) (pad_elem : T) (rows cols : Z)
    (output out' : Matrix T) (msg : list piece) :
  CountAndCopy fuel params indices W pad_elem rows cols output
    = Done (InvalidArgument msg, out') ->
  out' = output /\
  ((~ NoDup indices /\
    msg = duplicate_msg (Z.of_nat (length indices))
            (Z.of_nat (size (list_to_set indices : gset Z)))) \/
   (NoDup indices /\ 0 <= W /\
    exists (i : nat) (v : Z),
      indices !! i = Some v /\ ~ (0 <= v < W) /\
      (forall (j : nat) u, (j < i)%nat -> indices !! j = Some u -> 0 <= u < W) /\
      msg = out_of_range_msg (Z.of_nat i) v W)).
Proof.
  destruct (decide (NoDup indices)) as [Hnd|Hdup].
  - unfold CountAndCopy.
    pose proof Hnd as Hsz. apply size_list_to_set_NoDup in Hsz.
    rewrite Hsz, Z.eqb_refl. simpl negb. cbv iota.
    unfold vector_fill. destruct (Z.ltb_spec W 0) as [Hneg|HW]; [discriminate|].
    cbn [rbind]. rewrite Nat2Z.id.
    pose proof (arrange_spec indices W HW) as Harr.
    destruct (for_range _ _ (arrange_body _ _) _) as [[out|st]| |];
      try contradiction; cbn [rbind].
    + destruct (iter _ _ _) as [[cpc mx]| |]; cbn [rbind]; try discriminate.
      destruct (for_int _ _ _ _) as [[o|[]]| |]; cbn [rbind]; discriminate.
    + destruct Harr as (i & v & Hi & Hbad & Hfirst & ->).
      intros [= <- <-]. split; [reflexivity|]. right.
      split; [assumption|]. split; [assumption|]. exists i, v. auto.
  - rewrite CountAndCopy_duplicate by assumption.
    intros [= <- <-]. split; [reflexivity|]. left. auto.
Qed.

(** ** Termination of the row loop *)

Section Walk.

Context {T : Type}.
Variables (params : ConstMatrix T) (out cpc : list Z) (pv : list T).
Variables (W mx : Z).

(** The body of the column walk has no loop of its own. *)
Lemma copy_body_not_timeout (row : Z) (st : Z * Matrix T) :
  copy_body params out cpc pv W row st <> OutOfFuel.
Proof.
  destruct st as [col o].
  unfold copy_body, memcpy_to, memcpy, offset, coffset, vec_get, int_add, rbind.
  repeat case_match; congruence.
Qed.

(** An iteration that goes on has moved [col] forward, and not beyond the
    width. *)
Lemma copy_body_advance (row col col' : Z) (o o' : Matrix T) :
  runs out W cpc mx -> length out = Z.to_nat W ->
  copy_body params out cpc pv W row (col, o) = Done (Next (col', o')) ->
  col + 1 <= col' /\ (0 <= col -> col' <= W).
Proof.
  intros (Hcpclen & Hmx & Hrun & _) Houtlen. unfold copy_body.
  destruct (Z.ltb_spec col W) as [HcW|HcW]; [|discriminate].
  destruct (int_add_cases col 1) as [[_ ->]|[_ ->]]; cbn [rbind]; [|discriminate].
  destruct (if col + 1 <? W then _ else _) as [b| |]; cbn [rbind]; try discriminate.
  destruct (vec_get out col) as [src| |] eqn:Hsrc; cbn [rbind]; try discriminate.
  apply vec_get_Done in Hsrc as [Hcol Hsrc].
  destruct (Z.geb_spec src 0) as [Hge|Hlt].
  - destruct (coffset params row src) as [s| |]; cbn [rbind]; try discriminate.
    destruct (memcpy_to o row col (cdata params) s 1) as [o1| |]; cbn [rbind];
      try discriminate.
    intros [= <- _]. lia.
  - destruct (vec_get cpc col) as [n| |] eqn:Hn; cbn [rbind]; try discriminate.
    apply vec_get_Done in Hn as [_ Hn].
    destruct (memcpy_to o row col pv 0 n) as [o1| |]; cbn [rbind]; try discriminate.
    destruct (int_add_cases col n) as [[_ ->]|[_ ->]]; cbn [rbind]; [|discriminate].
    intros [= <- _].
    assert (Hzs : zget out col = src) by (unfold zget; rewrite Hsrc; reflexivity).
    assert (Hzn : zget cpc col = n) by (unfold zget; rewrite Hn; reflexivity).
    destruct (Hrun col ltac:(lia) ltac:(lia)) as (Hone & Hfit & _). lia.
Qed.

(** The column walk of a row ends, whatever the matrices. *)
Lemma copy_walk_terminates (fuel : nat) (row : Z) (o : Matrix T) :
  runs out W cpc mx -> length out = Z.to_nat W -> 0 <= W ->
  W < Z.of_nat fuel ->
  iter fuel (copy_body params out cpc pv W row) (0, o) <> OutOfFuel.
Proof.
  intros Hruns Houtlen HW Hfuel.
  apply (iter_rule (copy_body params out cpc pv W row)
    (fun st => 0 <= st.1 <= W) (fun st => W - st.1)
    (fun res => res <> OutOfFuel)).
  - intros [col o1] Hcol. simpl in Hcol.
    destruct (copy_body params out cpc pv W row (col, o1))
      as [[[col' o']|r]| |] eqn:Hbody; try discriminate.
    + apply copy_body_advance in Hbody; try assumption. simpl. lia.
    + exfalso. eapply copy_body_not_timeout. eassumption.
  - simpl. lia.
  - simpl. lia.
Qed.

End Walk.

(** The bound on the run lengths is what makes the walk end: on a padding
    column with run length 0 the walk stays where it is, for any fuel. *)
Lemma copy_walk_stuck {T : Type} (params : ConstMatrix T) (pv : list T)
    (fuel : nat) :
  forall o : Matrix T,
  dim0 o = 1 -> dim1 o = 1 -> length (data o) = 1%nat ->
  iter fuel (copy_body params [-1] [0] pv 1 0) (0, o) = OutOfFuel.
Proof.
  induction fuel as [|fuel IH]; intros o Hd0 Hd1 Hlen; [reflexivity|].
  cbn [iter]. unfold copy_body. simpl.
  unfold memcpy_to, offset. rewrite Hd0, Hd1. simpl.
  unfold memcpy. rewrite Hlen. simpl.
  destruct (Z.leb_spec (0 + 0) (Z.of_nat (length pv))) as [_|Hneg]; [|lia].
  simpl. apply IH; simpl; try reflexivity.
  rewrite drop_0. assumption.
Qed.

(** The whole function ends, whatever the input. *)
Lemma CountAndCopy_terminates {T : Type} (fuel : nat) (params : ConstMatrix T)
    (indices : list Z) (W : Z) (pad_elem : T) (rows cols : Z) (output : Matrix T) :
  W < Z.of_nat fuel ->
  CountAndCopy fuel params indices W pad_elem rows cols output <> OutOfFuel.
Proof.
  intros Hfuel.
  destruct (decide (NoDup indices)) as [Hnd|Hdup];
    [|rewrite CountAndCopy_duplicate by assumption; discriminate].
  destruct (Z.lt_ge_cases W 0) as [Hneg|HW].
  - rewrite CountAndCopy_negative_width by assumption. discriminate.
  - destruct (validation_cases indices W HW Hnd) as [Hvalid|(i & v & Hi & Hbad & Hfirst)].
    + destruct (CountAndCopy_stages (T:=T) fuel indices W Hvalid HW Hfuel)
        as (out & _ & Harr & Hstage).
      destruct (iter fuel (compress_body fuel out W) (0, replicate (Z.to_nat W) 0, 0))
        as [[cpc mx]| |]; [| |contradiction].
      * destruct Hstage as (Hruns & _ & ->).
        assert (Hloop : for_int (Z.to_nat rows) 0
                          (row_body fuel params out cpc
                             (replicate (Z.to_nat mx) pad_elem) W) output
                        <> OutOfFuel).
        { apply (for_int_rule _ (fun _ _ => True) (fun res => res <> OutOfFuel));
            [lia| |discriminate|discriminate|exact I].
          intros row o _ _. unfold row_body.
          pose proof (copy_walk_terminates params out cpc
                        (replicate (Z.to_nat mx) pad_elem) W mx fuel row o
                        Hruns (proj1 Harr) HW Hfuel) as Hwalk.
          destruct (iter _ _ _) as [o'| |]; cbn [rbind];
            first [exact I | congruence]. }
        destruct (for_int _ _ _ _) as [[o|[]]| |]; cbn [rbind]; congruence.
      * destruct Hstage as [_ ->]. discriminate.
    + rewrite (CountAndCopy_out_of_range fuel params indices W pad_elem rows cols
                 output i v) by assumption.
      discriminate.
Qed.

(** ** What the output does not depend on *)

(** Without a padding destination the pad vector is never copied from. *)
Lemma copy_body_pad_irrelevant {T : Type} (params : ConstMatrix T)
    (out cpc : list Z) (pv1 pv2 : list T) (W row : Z) (st : Z * Matrix T) :
  (forall x, x ∈ out -> 0 <= x) ->
  copy_body params out cpc pv1 W row st = copy_body params out cpc pv2 W row st.
Proof.
  intros Hpos. destruct st as [col o]. unfold copy_body.
  destruct (col <? W); [|reflexivity].
  destruct (int_add col 1) as [next| |]; cbn [rbind]; try reflexivity.
  destruct (if next <? W then _ else _) as [b| |]; cbn [rbind]; try reflexivity.
  destruct (vec_get out col) as [src| |] eqn:Hsrc; cbn [rbind]; try reflexivity.
  apply vec_get_Done in Hsrc as [_ Hsrc].
  assert (0 <= src) by (apply Hpos; apply list_elem_of_lookup; eauto).
  destruct (Z.geb_spec src 0); [reflexivity | lia].
Qed.

Lemma CountAndCopy_pad_irrelevant {T : Type} (fuel : nat) (params : ConstMatrix T)
    (indices : list Z) (W : Z) (pad1 pad2 : T) (rows cols : Z) (output : Matrix T) :
  valid_indices indices W -> (forall d, 0 <= d < W -> d ∈ indices) ->
  0 <= W -> W < Z.of_nat fuel ->
  CountAndCopy fuel params indices W pad1 rows cols output
  = CountAndCopy fuel params indices W pad2 rows cols output.
Proof.
  intros Hvalid Hall HW Hfuel.
  destruct (CountAndCopy_stages (T:=T) fuel indices W Hvalid HW Hfuel)
    as (out & _ & [Houtlen Hmap] & Hstage).
  destruct (iter fuel (compress_body fuel out W) (0, replicate (Z.to_nat W) 0, 0))
    as [[cpc mx]| |]; [| |contradiction].
  - destruct Hstage as (_ & _ & Heq).
    rewrite !Heq. f_equal. apply for_int_ext. intros row o. unfold row_body.
    f_equal. apply iter_ext. intros st. apply copy_body_pad_irrelevant.
    intros x Hx. apply list_elem_of_lookup in Hx as [d Hd].
    pose proof (lookup_lt_Some _ _ _ Hd) as Hlt.
    destruct (Hmap (Z.of_nat d) ltac:(lia)) as [[_ Hno]|[Hge _]].
    + exfalso. apply Hno, Hall. lia.
    + unfold zget in Hge. rewrite Nat2Z.id, Hd in Hge. exact Hge.
  - destruct Hstage as [_ Heq]. rewrite !Heq. reflexivity.
Qed.

Lemma cmat_get_row_of {T : Type} (m : ConstMatrix T) (r c : Z) :
  0 <= r < cdim0 m -> 0 <= c < cdim1 m ->
  Z.of_nat (length (cdata m)) = cdim0 m * cdim1 m ->
  cmat_get (row_of m r) 0 c = cmat_get m r c.
Proof.
  intros Hr Hc Hlen. unfold cmat_get.
  rewrite (coffset_Done m r c) by assumption.
  rewrite (coffset_Done (row_of m r) 0 c) by (simpl; lia).
  cbn [rbind]. simpl cdim1. simpl cdata.
  destruct (row_slab (cdim0 m) (cdim1 m) r Hr ltac:(lia)) as [Hlo Hhi].
  unfold vec_get.
  destruct (Z.ltb_spec (0 * cdim1 m + c) 0); [lia|].
  destruct (Z.ltb_spec (r * cdim1 m + c) 0); [lia|].
  rewrite lookup_take_lt by lia. rewrite lookup_drop.
  replace (Z.to_nat (r * cdim1 m) + Z.to_nat (0 * cdim1 m + c))%nat
    with (Z.to_nat (r * cdim1 m + c)) by lia.
  reflexivity.
Qed.

(** Two calls with the same indices, width and pad value: rows of the two
    [params] that agree give rows of the two outputs that agree, whatever
    the other rows and the buffers handed in hold. *)
Lemma row_determined {T : Type} (fuel : nat) (indices : list Z) (W : Z)
    (pad_elem : T) (cols : Z)
    (params1 params2 : ConstMatrix T) (rows1 rows2 : Z)
    (output1 output2 : Matrix T) (r1 r2 : Z) :
  shape_consistent params1 indices W rows1 cols output1 ->
  shape_consistent params2 indices W rows2 cols output2 ->
  valid_indices indices W -> W < Z.of_nat fuel ->
  W < INT_MAX -> rows1 <= INT_MAX -> rows2 <= INT_MAX ->
  0 <= r1 < rows1 -> 0 <= r2 < rows2 ->
  (forall c, 0 <= c < cols -> cmat_get params1 r1 c = cmat_get params2 r2 c) ->
  exists out1 out2,
    CountAndCopy fuel params1 indices W pad_elem rows1 cols output1 = Done (OK, out1) /\
    CountAndCopy fuel params2 indices W pad_elem rows2 cols output2 = Done (OK, out2) /\
    forall c, 0 <= c < W ->
      exists v, mat_get out1 r1 c = Done v /\ mat_get out2 r2 c = Done v.
Proof.
  intros Hs1 Hs2 Hvalid Hfuel HbW Hb1 Hb2 Hr1 Hr2 Hrows.
  destruct (CountAndCopy_cells fuel params1 indices W pad_elem rows1 cols output1
              Hs1 Hvalid Hfuel HbW Hb1) as (out1 & Hrun1 & _ & _ & _ & Hcells1).
  destruct (CountAndCopy_cells fuel params2 indices W pad_elem rows2 cols output2
              Hs2 Hvalid Hfuel HbW Hb2) as (out2 & Hrun2 & _ & _ & _ & Hcells2).
  exists out1, out2. split; [assumption|]. split; [assumption|].
  intros c Hc.
  destruct (Hcells1 r1 c Hr1 Hc) as [Hmap1 Hpad1].
  destruct (Hcells2 r2 c Hr2 Hc) as [Hmap2 Hpad2].
  destruct (decide (c ∈ indices)) as [Hin|Hno].
  - apply list_elem_of_lookup in Hin as [src Hsrc].
    destruct (Hmap1 src Hsrc) as (v1 & Hp1 & Ho1).
    destruct (Hmap2 src Hsrc) as (v2 & Hp2 & Ho2).
    pose proof (lookup_lt_Some _ _ _ Hsrc) as Hlt.
    destruct Hs1 as (_ & _ & Hcols & _).
    rewrite Hrows in Hp1 by lia.
    exists v1. split; [assumption|]. congruence.
  - exists pad_elem. auto.
Qed.

Lemma mat_get_Done_lookup {T : Type} (o : Matrix T) (r c : Z) (v : T) :
  mat_get o r c = Done v -> data o !! Z.to_nat (r * dim1 o + c) = Some v.
Proof.
  unfold mat_get, offset. destruct (_ && _); [|discriminate].
  cbn [rbind]. intros Hget. apply vec_get_Done in Hget. apply Hget.
Qed.

Lemma cmat_get_Done_lookup {T : Type} (m : ConstMatrix T) (r c : Z) (v : T) :
  cmat_get m r c = Done v -> cdata m !! Z.to_nat (r * cdim1 m + c) = Some v.
Proof.
  unfold cmat_get, coffset. destruct (_ && _); [|discriminate].
  cbn [rbind]. intros Hget. apply vec_get_Done in Hget. apply Hget.
Qed.

Lemma valid_indices_Forall (indices : list Z) (W : Z) :
  NoDup indices -> Forall (fun v => 0 <= v < W) indices ->
  valid_indices indices W.
Proof.
  intros Hnd Hall. split; [assumption|]. intros v Hv.
  rewrite Forall_forall in Hall. apply Hall. assumption.
Qed.

Lemma ex_valid : valid_indices ex_indices 10.
Proof.
  apply valid_indices_Forall; unfold ex_indices.
  - apply (bool_decide_unpack _). vm_compute. exact I.
  - repeat constructor; lia.
Qed.

Lemma ex_shape : shape_consistent ex_params ex_indices 10 1 4 ex_output.
Proof. unfold shape_consistent. simpl. lia. Qed.

(** The sizes of the examples are within the bounds. *)
Lemma small_bound (n : Z) : n <= 1000 -> n < INT_MAX /\ n <= INT_MAX.
Proof. unfold INT_MAX. lia. Qed.
(** * The specification, claim by claim *)

(** C1 (mapping correctness).  On valid input, that is destination indices
    pairwise distinct and each in the range from 0 up to the width, with the
    shapes the caller promises, a width and a number of rows that the [int]
    counters of the loops can hold, and fuel beyond the width,
    [CountAndCopy] returns [OK], and for every row [r] and destination
    column [c] of the output: the cell holds the cell of [params] in row [r]
    and column [src] whenever [indices(src) = c], and holds the pad value
    when no source column maps to [c]. *)
Theorem C1_mapping_correct {T : Type} (fuel : nat) (params : ConstMatrix T)
    (indices : list Z) (W : Z) (pad_elem : T) (rows cols : Z) (output : Matrix T) :
  shape_consistent params indices W rows cols output ->
  valid_indices indices W ->
  W < Z.of_nat fuel ->
  W < INT_MAX -> rows <= INT_MAX ->
  exists out',
    CountAndCopy fuel params indices W pad_elem rows cols output = Done (OK, out') /\
    forall r c, 0 <= r < rows -> 0 <= c < W ->
      (forall src : nat, indices !! src = Some c ->
         exists v, cmat_get params r (Z.of_nat src) = Done v /\
                   mat_get out' r c = Done v) /\
      (c ∉ indices -> mat_get out' r c = Done pad_elem).
Proof.
  intros Hshape Hvalid Hfuel HbW Hbr.
  destruct (CountAndCopy_cells fuel params indices W pad_elem rows cols output
              Hshape Hvalid Hfuel HbW Hbr) as (out' & Hrun & _ & _ & _ & Hcells).
  exists out'. split; assumption.
Qed.

Lemma C1_mapping_correct_witness :
  exists out',
    CountAndCopy 11 ex_params ex_indices 10 0 1 4 ex_output = Done (OK, out') /\
    mat_get out' 0 7 = Done 11 /\ mat_get out' 0 0 = Done 0.
Proof.
  destruct (C1_mapping_correct 11 ex_params ex_indices 10 0 1 4 ex_output
              ex_shape ex_valid ltac:(lia)
              ltac:(unfold INT_MAX; lia) ltac:(unfold INT_MAX; lia))
    as (out' & Hrun & Hcells).
  exists out'. split; [exact Hrun|].
  destruct (Hcells 0 7 ltac:(lia) ltac:(lia)) as [Hmap _].
  destruct (Hcells 0 0 ltac:(lia) ltac:(lia)) as [_ Hpad].
  split.
  - destruct (Hmap 0%nat eq_refl) as (v & Hv & Hout).
    vm_compute in Hv. injection Hv as <-. exact Hout.
  - apply Hpad. unfold ex_indices. intros Hin.
    repeat (apply elem_of_cons in Hin as [Hin|Hin]; [discriminate|]).
    apply elem_of_nil in Hin. exact Hin.
Defined.

(** C2 (documented example).  For the single row [11, 12, 13, 14], width 10,
    pad value 0 and indices [7, 4, 2, 3], whatever the 1 by 10 buffer handed
    in holds, [CountAndCopy] returns [OK] and the buffer then holds exactly
    [0, 0, 13, 14, 12, 0, 0, 11, 0, 0]. *)
Theorem C2_documented_example (fuel : nat) (output : Matrix Z) :
  10 < Z.of_nat fuel ->
  dim0 output = 1 -> dim1 output = 10 -> length (data output) = 10%nat ->
  exists out',
    CountAndCopy fuel ex_params ex_indices 10 0 1 4 output = Done (OK, out') /\
    dim0 out' = 1 /\ dim1 out' = 10 /\
    data out' = [0; 0; 13; 14; 12; 0; 0; 11; 0; 0].
Proof.
  intros Hfuel Hd0 Hd1 Hlen.
  assert (Hshape : shape_consistent ex_params ex_indices 10 1 4 output).
  { unfold shape_consistent. simpl. lia. }
  destruct (CountAndCopy_cells fuel ex_params ex_indices 10 0 1 4 output
              Hshape ex_valid Hfuel
              (proj1 (small_bound 10 ltac:(lia))) (proj2 (small_bound 1 ltac:(lia))))
    as (out' & Hrun & Ho0 & Ho1 & Holen & Hcells).
  exists out'. split; [assumption|]. split; [assumption|]. split; [assumption|].
  assert (Hmapped : forall (src : nat) c v,
            ex_indices !! src = Some c -> 0 <= c < 10 ->
            cmat_get ex_params 0 (Z.of_nat src) = Done v ->
            data out' !! Z.to_nat c = Some v).
  { intros src c v Hsrc Hc Hv.
    destruct (Hcells 0 c ltac:(lia) Hc) as [Hmap _].
    destruct (Hmap src Hsrc) as (v' & Hv' & Hout).
    apply mat_get_Done_lookup in Hout. rewrite Ho1 in Hout.
    replace (0 * 10 + c) with c in Hout by lia. congruence. }
  assert (Hpadded : forall c, 0 <= c < 10 -> c ∉ ex_indices ->
            data out' !! Z.to_nat c = Some 0).
  { intros c Hc Hno.
    destruct (Hcells 0 c ltac:(lia) Hc) as [_ Hpad].
    specialize (Hpad Hno). apply mat_get_Done_lookup in Hpad.
    rewrite Ho1 in Hpad. replace (0 * 10 + c) with c in Hpad by lia. assumption. }
  assert (Hfree : forall c, c <> 7 -> c <> 4 -> c <> 2 -> c <> 3 -> c ∉ ex_indices).
  { intros c H7 H4 H2 H3 Hin. unfold ex_indices in Hin.
    repeat (apply elem_of_cons in Hin as [Hin|Hin]; [congruence|]).
    apply elem_of_nil in Hin. exact Hin. }
  pose proof (Hpadded 0 ltac:(lia) ltac:(apply Hfree; lia)) as H0.
  pose proof (Hpadded 1 ltac:(lia) ltac:(apply Hfree; lia)) as H1.
  pose proof (Hmapped 2%nat 2 13 eq_refl ltac:(lia) eq_refl) as H2.
  pose proof (Hmapped 3%nat 3 14 eq_refl ltac:(lia) eq_refl) as H3.
  pose proof (Hmapped 1%nat 4 12 eq_refl ltac:(lia) eq_refl) as H4.
  pose proof (Hpadded 5 ltac:(lia) ltac:(apply Hfree; lia)) as H5.
  pose proof (Hpadded 6 ltac:(lia) ltac:(apply Hfree; lia)) as H6.
  pose proof (Hmapped 0%nat 7 11 eq_refl ltac:(lia) eq_refl) as H7.
  pose proof (Hpadded 8 ltac:(lia) ltac:(apply Hfree; lia)) as H8.
  pose proof (Hpadded 9 ltac:(lia) ltac:(apply Hfree; lia)) as H9.
  rewrite Hlen in Holen.
  destruct (data out') as [|x0 [|x1 [|x2 [|x3 [|x4 [|x5 [|x6 [|x7 [|x8 [|x9 [|x10 l]]]]]]]]]]];
    try discriminate.
  simpl in H0, H1, H2, H3, H4, H5, H6, H7, H8, H9. congruence.
Qed.

Lemma C2_documented_example_witness :
  CountAndCopy 11 ex_params ex_indices 10 0 1 4 ex_output
  = Done (OK, mkMatrix 1 10 [0; 0; 13; 14; 12; 0; 0; 11; 0; 0]
                [(0, 2); (2, 1); (3, 1); (4, 1); (5, 2); (7, 1); (8, 2)]) /\
  exists out',
    CountAndCopy 11 ex_params ex_indices 10 0 1 4 ex_output = Done (OK, out') /\
    dim0 out' = 1 /\ dim1 out' = 10 /\
    data out' = [0; 0; 13; 14; 12; 0; 0; 11; 0; 0].
Proof.
  split; [vm_compute; reflexivity|].
  apply (C2_documented_example 11 ex_output); [lia | reflexivity..].
Defined.

(** C3 (failure results).  For a width that is a column count (not
    negative), [CountAndCopy] returns a failure exactly when the indices
    hold a duplicate or a value outside the range from 0 up to the width.
    The duplicate failure reports the number of indices and the number of
    distinct ones; without duplicates, the out-of-range failure reports the
    first offending position, its value and the width.  For indices [1, 1]
    the report is total 2 and unique 1; for width 5 and indices [7] it is
    position 0, value 7 and bound 5. *)
Theorem C3_failure_iff_invalid {T : Type} (fuel : nat) (params : ConstMatrix T)
    (indices : list Z) (W : Z) (pad_elem : T) (rows cols : Z) (output : Matrix T) :
  0 <= W ->
  ((exists msg out',
      CountAndCopy fuel params indices W pad_elem rows cols output
      = Done (InvalidArgument msg, out'))
   <-> (~ NoDup indices \/ exists v, v ∈ indices /\ ~ (0 <= v < W))) /\
  (~ NoDup indices ->
   CountAndCopy fuel params indices W pad_elem rows cols output
   = Done (InvalidArgument
             [Str "Indices cannot contain duplicates.";
              Str " Total no. of indices: "; Num (Z.of_nat (length indices));
              Str " != no. of unique indices: ";
              Num (Z.of_nat (size (list_to_set indices : gset Z)));
              Str "."], output)) /\
  (NoDup indices ->
   forall (i : nat) v,
     indices !! i = Some v -> ~ (0 <= v < W) ->
     (forall (j : nat) u, (j < i)%nat -> indices !! j = Some u -> 0 <= u < W) ->
     CountAndCopy fuel params indices W pad_elem rows cols output
     = Done (InvalidArgument
               [Str "Indices("; Num (Z.of_nat i); Str "): "; Num v;
                Str " is not in range (0, "; Num W; Str "]."], output)) /\
  CountAndCopy fuel params [1; 1] W pad_elem rows cols output
  = Done (InvalidArgument (duplicate_msg 2 1), output) /\
  CountAndCopy fuel params [7] 5 pad_elem rows cols output
  = Done (InvalidArgument (out_of_range_msg 0 7 5), output).
Proof.
  intros HW. split; [split|].
  - intros (msg & out' & Hrun).
    apply CountAndCopy_failure_inv in Hrun
      as [_ [[Hdup _]|(_ & _ & i & v & Hi & Hbad & _)]].
    + left. assumption.
    + right. exists v. split; [|assumption]. apply list_elem_of_lookup. eauto.
  - intros [Hdup|(v & Hv & Hbad)].
    + rewrite CountAndCopy_duplicate by assumption. eauto.
    + destruct (decide (NoDup indices)) as [Hnd|Hdup];
        [|rewrite CountAndCopy_duplicate by assumption; eauto].
      destruct (validation_cases indices W HW Hnd)
        as [[_ Hrange]|(i & u & Hi & Hbadu & Hfirst)].
      * exfalso. apply Hbad, Hrange. assumption.
      * rewrite (CountAndCopy_out_of_range fuel params indices W pad_elem rows cols
                   output i u) by assumption.
        eauto.
  - split; [apply CountAndCopy_duplicate|]. split.
    + intros Hnd i v Hi Hbad Hfirst. apply CountAndCopy_out_of_range; assumption.
    + split.
      * rewrite CountAndCopy_duplicate; [reflexivity|].
        intros Hnd. apply NoDup_cons in Hnd as [Hno _]. apply Hno. left.
      * apply (CountAndCopy_out_of_range fuel params [7] 5 pad_elem rows cols
                 output 0 7).
        -- apply NoDup_singleton.
        -- lia.
        -- reflexivity.
        -- lia.
        -- intros j u Hj. lia.
Qed.

Lemma C3_failure_iff_invalid_witness :
  CountAndCopy 11 ex_params [7; 4; 12; 3] 10 0 1 4 ex_output
  = Done (InvalidArgument (out_of_range_msg 2 12 10), ex_output).
Proof.
  destruct (C3_failure_iff_invalid 11 ex_params [7; 4; 12; 3] 10 0 1 4 ex_output
              ltac:(lia)) as (_ & _ & Hrange & _).
  apply (Hrange ltac:(apply (bool_decide_unpack _); vm_compute; exact I)
           2%nat 12 eq_refl ltac:(lia)).
  intros j u Hj Hu.
  destruct j as [|[|j]]; [injection Hu as <-; lia | injection Hu as <-; lia | lia].
Defined.

(** C4 (fail fast).  Whenever [CountAndCopy] returns a failure, the output
    buffer comes back exactly as the caller handed it in, and no [memcpy]
    into it has been recorded. *)
Theorem C4_failure_leaves_output {T : Type} (fuel : nat) (params : ConstMatrix T)
    (indices : list Z) (W : Z) (pad_elem : T) (rows cols : Z)
    (output out' : Matrix T) (msg : list piece) :
  CountAndCopy fuel params indices W pad_elem rows cols output
    = Done (InvalidArgument msg, out') ->
  out' = output /\ data out' = data output /\ writes out' = writes output.
Proof.
  intros Hrun. apply CountAndCopy_failure_inv in Hrun as [-> _]. auto.
Qed.

Lemma C4_failure_leaves_output_witness :
  CountAndCopy 11 ex_params [7; 4; 7; 3] 10 0 1 4 ex_output
    = Done (InvalidArgument (duplicate_msg 4 3), ex_output) /\
  (ex_output = ex_output /\ data ex_output = data ex_output /\
   writes ex_output = writes ex_output).
Proof.
  assert (Hrun : CountAndCopy 11 ex_params [7; 4; 7; 3] 10 0 1 4 ex_output
                 = Done (InvalidArgument (duplicate_msg 4 3), ex_output))
    by (vm_compute; reflexivity).
  split; [exact Hrun|].
  exact (C4_failure_leaves_output 11 ex_params [7; 4; 7; 3] 10 0 1 4 ex_output
           ex_output (duplicate_msg 4 3) Hrun).
Defined.

(** C5 (accepted range).  The range check accepts the value 0 and refuses
    the value of the width.  Valid indices that include 0 pass the
    validation: the arranging loop runs to its end with destination 0
    mapped, the call returns no failure, and with the shapes the caller
    promises and sizes that the [int] counters can hold it returns [OK].
    A call whose indices include the width itself always fails; when the
    indices have no duplicate the failure is the out-of-range one, and
    when the width is their only value out of the range it is reported at
    its position, in a message whose text reads "(0, W]". *)
Theorem C5_zero_based_half_open {T : Type} (fuel : nat) (params : ConstMatrix T)
    (indices : list Z) (W : Z) (pad_elem : T) (rows cols : Z) (output : Matrix T) :
  0 <= W ->
  (0 ∈ indices -> valid_indices indices W ->
   FastBoundsCheck 0 W = true /\
   (exists out_indices,
      for_range (length indices) 0 (arrange_body indices W)
        (replicate (Z.to_nat W) (-1)) = Done (Next out_indices) /\
      0 <= zget out_indices 0) /\
   (forall msg out',
      CountAndCopy fuel params indices W pad_elem rows cols output
      <> Done (InvalidArgument msg, out')) /\
   (shape_consistent params indices W rows cols output -> W < Z.of_nat fuel ->
    W < INT_MAX -> rows <= INT_MAX ->
    exists out',
      CountAndCopy fuel params indices W pad_elem rows cols output
      = Done (OK, out'))) /\
  (W ∈ indices ->
   FastBoundsCheck W W = false /\
   (exists msg,
      CountAndCopy fuel params indices W pad_elem rows cols output
      = Done (InvalidArgument msg, output)) /\
   (NoDup indices ->
    exists (i : nat) v,
      indices !! i = Some v /\ ~ (0 <= v < W) /\
      CountAndCopy fuel params indices W pad_elem rows cols output
      = Done (InvalidArgument
                [Str "Indices("; Num (Z.of_nat i); Str "): "; Num v;
                 Str " is not in range (0, "; Num W; Str "]."], output)) /\
   (NoDup indices -> (forall v, v ∈ indices -> v <> W -> 0 <= v < W) ->
    forall i : nat, indices !! i = Some W ->
      CountAndCopy fuel params indices W pad_elem rows cols output
      = Done (InvalidArgument
                [Str "Indices("; Num (Z.of_nat i); Str "): "; Num W;
                 Str " is not in range (0, "; Num W; Str "]."], output))).
Proof.
  intros HW. split.
  - intros Hzero Hvalid.
    assert (Hzr : 0 <= 0 < W) by (apply Hvalid; assumption).
    split; [apply FastBoundsCheck_spec; assumption|]. split; [|split].
    + pose proof (arrange_spec indices W HW) as Harr.
      destruct (for_range (length indices) 0 (arrange_body indices W)
                  (replicate (Z.to_nat W) (-1))) as [[out|st]| |];
        try contradiction.
      * exists out. split; [reflexivity|]. destruct Harr as [_ [_ Hmap]].
        destruct (Hmap 0 Hzr) as [[_ Hno]|[Hge _]]; [contradiction | assumption].
      * destruct Harr as (i & v & Hi & Hbad & _). exfalso.
        apply Hbad, Hvalid, list_elem_of_lookup. eauto.
    + intros msg out' Hrun.
      apply CountAndCopy_failure_inv in Hrun
        as [_ [[Hdup _]|(_ & _ & i & v & Hi & Hbad & _)]].
      * apply Hdup, Hvalid.
      * apply Hbad, Hvalid, list_elem_of_lookup. eauto.
    + intros Hshape Hfuel HbW Hbr.
      destruct (CountAndCopy_cells fuel params indices W pad_elem rows cols output
                  Hshape Hvalid Hfuel HbW Hbr) as (out' & Hrun & _).
      eauto.
  - intros Hin.
    assert (Hbad : ~ (0 <= W < W)) by lia.
    split; [|split; [|split]].
    + destruct (FastBoundsCheck W W) eqn:Hchk; [|reflexivity].
      apply FastBoundsCheck_spec in Hchk. lia.
    + destruct (decide (NoDup indices)) as [Hnd|Hdup];
        [|rewrite CountAndCopy_duplicate by assumption; eauto].
      destruct (validation_cases indices W HW Hnd)
        as [[_ Hrange]|(i & u & Hi & Hbadu & Hfirst)].
      * exfalso. apply Hbad, Hrange. assumption.
      * rewrite (CountAndCopy_out_of_range fuel params indices W pad_elem rows cols
                   output i u) by assumption.
        eauto.
    + intros Hnd.
      destruct (validation_cases indices W HW Hnd)
        as [[_ Hrange]|(i & u & Hi & Hbadu & Hfirst)].
      * exfalso. apply Hbad, Hrange. assumption.
      * exists i, u. split; [assumption|]. split; [assumption|].
        apply CountAndCopy_out_of_range; assumption.
    + intros Hnd Hothers i Hi.
      apply CountAndCopy_out_of_range; try assumption.
      intros j u Hj Hu. apply Hothers.
      * apply list_elem_of_lookup. eauto.
      * intros ->. assert (j = i) by (eapply NoDup_lookup; eassumption). lia.
Qed.

Lemma C5_zero_based_half_open_witness :
  (exists out',
     CountAndCopy 11 ex_params [7; 0; 2; 3] 10 0 1 4 ex_output = Done (OK, out')) /\
  CountAndCopy 11 ex_params [7; 10; 2; 3] 10 0 1 4 ex_output
  = Done (InvalidArgument (out_of_range_msg 1 10 10), ex_output).
Proof.
  split.
  - destruct (C5_zero_based_half_open 11 ex_params [7; 0; 2; 3] 10 0 1 4 ex_output
                ltac:(lia)) as [Hzero _].
    destruct Hzero as (_ & _ & _ & Hok).
    + apply elem_of_cons. right. apply elem_of_cons. left. reflexivity.
    + apply valid_indices_Forall.
      * apply (bool_decide_unpack _). vm_compute. exact I.
      * repeat constructor; lia.
    + apply Hok.
      * unfold shape_consistent. simpl. lia.
      * lia.
      * unfold INT_MAX. lia.
      * unfold INT_MAX. lia.
  - destruct (C5_zero_based_half_open 11 ex_params [7; 10; 2; 3] 10 0 1 4 ex_output
                ltac:(lia)) as [_ Hwidth].
    destruct Hwidth as (_ & _ & _ & Hat).
    + apply elem_of_cons. right. apply elem_of_cons. left. reflexivity.
    + assert (Hnd : NoDup [7; 10; 2; 3])
        by (apply (bool_decide_unpack _); vm_compute; exact I).
      assert (Hothers : forall v : Z, v ∈ [7; 10; 2; 3] -> v <> 10 -> 0 <= v < 10).
      { intros v Hv Hne.
        repeat (apply elem_of_cons in Hv as [->|Hv]; [lia|]).
        apply elem_of_nil in Hv. contradiction. }
      exact (Hat Hnd Hothers 1%nat eq_refl).
Defined.

(** C9 (more source columns than destinations), as amended.  There is no
    check of the width against the number of source columns, and yet, with
    as many indices as [params_cols] and a width below that, every call in
    which the width is not negative or the indices hold a duplicate fails
    in the validation, with the duplicate or the out-of-range failure, and
    the buffer comes back untouched. *)
Theorem C9_too_narrow_fails {T : Type} (fuel : nat) (params : ConstMatrix T)
    (indices : list Z) (W : Z) (pad_elem : T) (rows cols : Z) (output : Matrix T) :
  0 <= W \/ ~ NoDup indices ->
  cols = Z.of_nat (length indices) -> W < cols ->
  ~ valid_indices indices W /\
  exists msg,
    CountAndCopy fuel params indices W pad_elem rows cols output
    = Done (InvalidArgument msg, output) /\
    (msg = duplicate_msg (Z.of_nat (length indices))
             (Z.of_nat (size (list_to_set indices : gset Z))) \/
     exists (i : nat) v,
       indices !! i = Some v /\ ~ (0 <= v < W) /\
       msg = out_of_range_msg (Z.of_nat i) v W).
Proof.
  intros Hcall Hcols Hnarrow.
  destruct (decide (NoDup indices)) as [Hnd|Hdup].
  - assert (HW : 0 <= W) by (destruct Hcall; [assumption | contradiction]).
    assert (Hinvalid : ~ valid_indices indices W).
    { intros Hvalid. apply valid_indices_length in Hvalid; lia. }
    split; [assumption|].
    destruct (validation_cases indices W HW Hnd)
      as [Hvalid|(i & v & Hi & Hbad & Hfirst)]; [contradiction|].
    eexists. split.
    + apply (CountAndCopy_out_of_range fuel params indices W pad_elem rows cols
               output i v); assumption.
    + right. eauto.
  - split; [intros [Hnd _]; contradiction|].
    eexists. split; [apply CountAndCopy_duplicate; assumption|]. left. reflexivity.
Qed.

Lemma C9_too_narrow_fails_witness :
  exists msg,
    CountAndCopy 11 ex_params ex_indices 3 0 1 4 ex_output
    = Done (InvalidArgument msg, ex_output).
Proof.
  destruct (C9_too_narrow_fails 11 ex_params ex_indices 3 0 1 4 ex_output
              ltac:(left; lia) eq_refl ltac:(lia)) as (_ & msg & Hrun & _).
  exists msg. exact Hrun.
Defined.

(** C9, as stated, fails at a negative width with distinct indices: with
    one source column, the index 0 and the width -1 the call returns no
    failure of the validation; it dies in the constructor of
    [out_indices]. *)
Lemma C9_negative_width_counterexample :
  -1 < 1 /\ 1 = Z.of_nat (length [0]) /\
  CountAndCopy 1 (mkConstMatrix 1 1 [11]) [0] (-1) 0 1 1 (mkMatrix 1 0 [] [])
  = Fault /\
  ~ exists msg out',
      CountAndCopy 1 (mkConstMatrix 1 1 [11]) [0] (-1) 0 1 1 (mkMatrix 1 0 [] [])
      = Done (InvalidArgument msg, out').
Proof.
  assert (Hrun : CountAndCopy 1 (mkConstMatrix 1 1 [11]) [0] (-1) 0 1 1
                   (mkMatrix 1 0 [] []) = Fault)
    by (vm_compute; reflexivity).
  split; [lia|]. split; [reflexivity|]. split; [exact Hrun|].
  intros (msg & out' & Hfail). rewrite Hrun in Hfail. discriminate.
Qed.

(** C6 (every cell written once).  On valid input one call adds to the
    write history of the buffer one list of writes per row.  The writes of
    row [r] are the steps of the column walk over the inverse map and the
    run lengths the call has computed: one cell at a mapped column,
    [cons_pad_cols[col]] cells at a padding column.  They are consecutive
    non-empty intervals of cells that start at the first cell of the row and
    end at its last, so they are disjoint and their union is the row.  Every
    cell [(r, c)] of the output is thus touched by exactly one write of the
    call, and no cell outside of the buffer by any.  The one write of a cell
    leaves in it the value of its source column, or the pad value at a
    padding column, and the buffer keeps its length.  The sizes are those
    that the [int] counters of the loops can hold. *)
Theorem C6_each_cell_written_once {T : Type} (fuel : nat) (params : ConstMatrix T)
    (indices : list Z) (W : Z) (pad_elem : T) (rows cols : Z) (output : Matrix T) :
  shape_consistent params indices W rows cols output ->
  valid_indices indices W ->
  W < Z.of_nat fuel ->
  W < INT_MAX -> rows <= INT_MAX ->
  exists out_indices cons_pad_cols max_cons_pad_cols out'
         (per_row : list (list (Z * Z))),
    for_range (length indices) 0 (arrange_body indices W)
      (replicate (Z.to_nat W) (-1)) = Done (Next out_indices) /\
    iter fuel (compress_body fuel out_indices W) (0, replicate (Z.to_nat W) 0, 0)
      = Done (cons_pad_cols, max_cons_pad_cols) /\
    CountAndCopy fuel params indices W pad_elem rows cols output = Done (OK, out') /\
    writes out' = writes output ++ concat per_row /\
    Z.of_nat (length per_row) = rows /\
    (forall (r : nat) ws, per_row !! r = Some ws ->
       tiling (Z.of_nat r * W) (Z.of_nat r * W + W) ws /\
       Forall (walk_step out_indices cons_pad_cols W (Z.of_nat r)) ws) /\
    (forall r c, 0 <= r < rows -> 0 <= c < W ->
       offset out' r c = Done (r * W + c) /\
       times_written (r * W + c) (concat per_row) = 1%nat) /\
    (forall k, ~ (0 <= k < rows * W) ->
       times_written k (concat per_row) = 0%nat) /\
    length (data out') = length (data output) /\
    (forall r c, 0 <= r < rows -> 0 <= c < W ->
       (forall src : nat, indices !! src = Some c ->
          exists v, cmat_get params r (Z.of_nat src) = Done v /\
                    data out' !! Z.to_nat (r * W + c) = Some v) /\
       (c ∉ indices -> data out' !! Z.to_nat (r * W + c) = Some pad_elem)).
Proof.
  intros Hshape Hvalid Hfuel HbW Hbr.
  destruct (CountAndCopy_spec fuel params indices W pad_elem rows cols output
              Hshape Hvalid Hfuel HbW Hbr)
    as (out & cpc & mx & out' & Hfor & Hcomp & Harr & _ & Hrun & Hd0 & Hd1 & Hlen
        & Hcells & per_row & Hws & Hn & Hrow & Hall).
  pose proof Hshape as (Hrows & HW & _).
  exists out, cpc, mx, out', per_row. split; [assumption|]. split; [assumption|].
  split; [assumption|]. split; [assumption|].
  split; [assumption|]. split; [assumption|]. split; [|split; [|split]].
  - intros r c Hr Hc. split.
    + rewrite offset_Done by lia. rewrite Hd1. reflexivity.
    + rewrite (tiling_times_written _ _ _ _ Hall).
      destruct (decide _) as [_|Hno]; [reflexivity|].
      exfalso. apply Hno.
      pose proof (cell_of_row W rows r c Hr Hc). lia.
  - intros k Hk. rewrite (tiling_times_written _ _ _ _ Hall).
    destruct (decide _) as [Hyes|_]; [contradiction | reflexivity].
  - assumption.
  - intros r c Hr Hc.
    assert (Hby : (forall src : nat, indices !! src = Some c ->
                     exists v, cmat_get params r (Z.of_nat src) = Done v /\
                               mat_get out' r c = Done v) /\
                  (c ∉ indices -> mat_get out' r c = Done pad_elem))
      by (eapply cells_by_indices; eassumption).
    destruct Hby as [Hmap Hpad]. split.
    + intros src Hsrc. destruct (Hmap src Hsrc) as (v & Hv & Hget).
      exists v. split; [assumption|].
      apply mat_get_Done_lookup in Hget. rewrite Hd1 in Hget. exact Hget.
    + intros Hno. specialize (Hpad Hno).
      apply mat_get_Done_lookup in Hpad. rewrite Hd1 in Hpad. exact Hpad.
Qed.

Lemma C6_each_cell_written_once_witness :
  exists out' per_row,
    CountAndCopy 11 ex_params ex_indices 10 0 1 4 ex_output = Done (OK, out') /\
    writes out' = writes ex_output ++ concat per_row /\
    times_written 6 (concat per_row) = 1%nat /\
    data out' !! Z.to_nat (0 * 10 + 6) = Some 0.
Proof.
  destruct (C6_each_cell_written_once 11 ex_params ex_indices 10 0 1 4 ex_output
              ex_shape ex_valid ltac:(lia) ltac:(unfold INT_MAX; lia)
              ltac:(unfold INT_MAX; lia))
    as (out & cpc & mx & out' & per_row & _ & _ & Hrun & Hws & _ & _ & Honce & _
        & _ & Hdata).
  exists out', per_row. split; [exact Hrun|]. split; [exact Hws|].
  split; [exact (proj2 (Honce 0 6 ltac:(lia) ltac:(lia)))|].
  apply (proj2 (Hdata 0 6 ltac:(lia) ltac:(lia))).
  intros Hin. unfold ex_indices in Hin.
  repeat (apply elem_of_cons in Hin as [Hin|Hin]; [discriminate|]).
  apply elem_of_nil in Hin. contradiction.
Defined.

(** C7 (pure permutation).  When the width equals the number of source
    columns and the indices are a permutation of the destinations,
    [CountAndCopy] returns [OK] and the cell [(r, indices(i))] of the output
    holds the cell [(r, i)] of [params] for every row [r] and source column
    [i].  The pad value is not read: no destination is a padding one, the
    longest run is 0 so that [pad_elem_vec] is built empty, and the result
    of the call is the same for any two pad values.  The sizes are those
    that the [int] counters of the loops can hold. *)
Theorem C7_pure_permutation {T : Type} (fuel : nat) (params : ConstMatrix T)
    (indices : list Z) (W : Z) (pad_elem : T) (rows cols : Z) (output : Matrix T) :
  shape_consistent params indices W rows cols output ->
  W = cols ->
  indices ≡ₚ seqZ 0 cols ->
  W < Z.of_nat fuel ->
  W < INT_MAX -> rows <= INT_MAX ->
  (exists out',
     CountAndCopy fuel params indices W pad_elem rows cols output = Done (OK, out') /\
     forall r (i : nat) d, 0 <= r < rows -> indices !! i = Some d ->
       exists v, cmat_get params r (Z.of_nat i) = Done v /\
                 mat_get out' r d = Done v) /\
  (exists out_indices cons_pad_cols,
     for_range (length indices) 0 (arrange_body indices W)
       (replicate (Z.to_nat W) (-1)) = Done (Next out_indices) /\
     (forall c, 0 <= c < W -> 0 <= zget out_indices c) /\
     iter fuel (compress_body fuel out_indices W) (0, replicate (Z.to_nat W) 0, 0)
       = Done (cons_pad_cols, 0)) /\
  forall pad_elem' : T,
    CountAndCopy fuel params indices W pad_elem' rows cols output
    = CountAndCopy fuel params indices W pad_elem rows cols output.
Proof.
  intros Hshape HWC Hperm Hfuel HbW Hbr. subst cols.
  assert (Hmem : forall d, d ∈ indices <-> 0 <= d < W).
  { intros d. rewrite Hperm, elem_of_seqZ. lia. }
  assert (Hvalid : valid_indices indices W).
  { split; [rewrite Hperm; apply NoDup_seqZ|]. intros v Hv. apply Hmem. assumption. }
  split; [|split].
  - destruct (CountAndCopy_cells fuel params indices W pad_elem rows W output
                Hshape Hvalid Hfuel HbW Hbr) as (out' & Hrun & _ & _ & _ & Hcells).
    exists out'. split; [assumption|]. intros r i d Hr Hi.
    assert (Hd : 0 <= d < W) by (apply Hmem, list_elem_of_lookup; eauto).
    destruct (Hcells r d Hr Hd) as [Hmap _]. apply Hmap. assumption.
  - destruct Hshape as (_ & HW & _).
    destruct (CountAndCopy_valid (T:=T) fuel indices W Hvalid HW Hfuel HbW)
      as (out & cpc & mx & Hfor & Hcomp & [_ Hmap] & (_ & _ & _ & Hatt) & _).
    assert (Hmapped : forall c, 0 <= c < W -> 0 <= zget out c).
    { intros c Hc. destruct (Hmap c Hc) as [[_ Hno]|[Hge _]]; [|assumption].
      exfalso. apply Hno, Hmem. assumption. }
    exists out, cpc. split; [assumption|]. split; [assumption|].
    destruct Hatt as [->|(c & Hc & Hpad & _)]; [assumption|].
    specialize (Hmapped c Hc). lia.
  - intros pad_elem'. destruct Hshape as (_ & HW & _).
    apply CountAndCopy_pad_irrelevant; try assumption.
    intros d Hd. apply Hmem. assumption.
Qed.

Lemma C7_pure_permutation_witness :
  (exists out',
     CountAndCopy 5 ex_params [2; 0; 3; 1] 4 0 1 4 (mkMatrix 1 4 [5; 5; 5; 5] [])
     = Done (OK, out') /\
     mat_get out' 0 2 = Done 11) /\
  CountAndCopy 5 ex_params [2; 0; 3; 1] 4 77 1 4 (mkMatrix 1 4 [5; 5; 5; 5] [])
  = CountAndCopy 5 ex_params [2; 0; 3; 1] 4 0 1 4 (mkMatrix 1 4 [5; 5; 5; 5] []).
Proof.
  assert (Hshape : shape_consistent ex_params [2; 0; 3; 1] 4 1 4
                     (mkMatrix 1 4 [5; 5; 5; 5] []))
    by (unfold shape_consistent; simpl; lia).
  assert (Hperm : [2; 0; 3; 1] ≡ₚ seqZ 0 4).
  { apply (bool_decide_unpack _). vm_compute. exact I. }
  destruct (C7_pure_permutation 5 ex_params [2; 0; 3; 1] 4 0 1 4
              (mkMatrix 1 4 [5; 5; 5; 5] []) Hshape eq_refl Hperm ltac:(lia)
              ltac:(unfold INT_MAX; lia) ltac:(unfold INT_MAX; lia))
    as ((out' & Hrun & Hcells) & _ & Hpad).
  split.
  - exists out'. split; [exact Hrun|].
    destruct (Hcells 0 0%nat 2 ltac:(lia) eq_refl) as (v & Hv & Hout).
    vm_compute in Hv. injection Hv as <-. exact Hout.
  - apply Hpad.
Defined.

(** C8 (row independence).  On valid input and for any number of rows, row
    [r] of the output is decided by row [r] of [params]: a second call
    whose [params] agree with the first on row [r], whatever their other
    rows and whatever buffer is handed in, gives the same row [r]; and the
    call on the one-row matrix that holds row [r] alone gives, as its only
    row, row [r] of the output.  The sizes are those that the [int]
    counters of the loops can hold. *)
Theorem C8_row_independence {T : Type} (fuel : nat) (params : ConstMatrix T)
    (indices : list Z) (W : Z) (pad_elem : T) (rows cols : Z) (output : Matrix T)
    (r : Z) :
  shape_consistent params indices W rows cols output ->
  valid_indices indices W ->
  W < Z.of_nat fuel ->
  W < INT_MAX -> rows <= INT_MAX ->
  0 <= r < rows ->
  (forall (params' : ConstMatrix T) (output' : Matrix T),
     shape_consistent params' indices W rows cols output' ->
     (forall c, 0 <= c < cols -> cmat_get params' r c = cmat_get params r c) ->
     exists out1 out2,
       CountAndCopy fuel params indices W pad_elem rows cols output = Done (OK, out1) /\
       CountAndCopy fuel params' indices W pad_elem rows cols output' = Done (OK, out2) /\
       forall c, 0 <= c < W ->
         exists v, mat_get out1 r c = Done v /\ mat_get out2 r c = Done v) /\
  (forall output1 : Matrix T,
     dim0 output1 = 1 -> dim1 output1 = W -> Z.of_nat (length (data output1)) = W ->
     exists out_all out_one,
       CountAndCopy fuel params indices W pad_elem rows cols output
         = Done (OK, out_all) /\
       CountAndCopy fuel (row_of params r) indices W pad_elem 1 cols output1
         = Done (OK, out_one) /\
       forall c, 0 <= c < W ->
         exists v, mat_get out_all r c = Done v /\ mat_get out_one 0 c = Done v).
Proof.
  intros Hshape Hvalid Hfuel HbW Hbr Hr.
  assert (Hb1 : 1 <= INT_MAX) by (unfold INT_MAX; lia).
  split.
  - intros params' output' Hshape' Hagree.
    apply (row_determined fuel indices W pad_elem cols params params' rows rows
             output output' r r); try assumption.
    intros c Hc. symmetry. apply Hagree. assumption.
  - intros output1 Hd0 Hd1 Hlen.
    pose proof Hshape as (Hrows & HW & Hcols & Hp0 & Hp1 & Hplen & _).
    destruct (row_slab rows cols r Hr ltac:(lia)) as [Hlo Hhi].
    apply (row_determined fuel indices W pad_elem cols params (row_of params r)
             rows 1 output output1 r 0); try assumption; try lia.
    + unfold shape_consistent. simpl.
      rewrite length_take, length_drop. rewrite Hp1. repeat split; try lia.
    + intros c Hc. symmetry. apply cmat_get_row_of; lia.
Qed.

Lemma C8_row_independence_witness :
  exists out_all out_one,
    CountAndCopy 4 (mkConstMatrix 2 2 [1; 2; 3; 4]) [2; 0] 3 9 2 2
      (mkMatrix 2 3 [0; 0; 0; 0; 0; 0] []) = Done (OK, out_all) /\
    CountAndCopy 4 (row_of (mkConstMatrix 2 2 [1; 2; 3; 4]) 1) [2; 0] 3 9 1 2
      (mkMatrix 1 3 [0; 0; 0] []) = Done (OK, out_one) /\
    forall c, 0 <= c < 3 ->
      exists v, mat_get out_all 1 c = Done v /\ mat_get out_one 0 c = Done v.
Proof.
  assert (Hshape : shape_consistent (mkConstMatrix 2 2 [1; 2; 3; 4]) [2; 0] 3 2 2
                     (mkMatrix 2 3 [0; 0; 0; 0; 0; 0] []))
    by (unfold shape_consistent; simpl; lia).
  assert (Hvalid : valid_indices [2; 0] 3).
  { apply valid_indices_Forall.
    - apply (bool_decide_unpack _). vm_compute. exact I.
    - repeat constructor; lia. }
  destruct (C8_row_independence 4 (mkConstMatrix 2 2 [1; 2; 3; 4]) [2; 0] 3 9 2 2
              (mkMatrix 2 3 [0; 0; 0; 0; 0; 0] []) 1 Hshape Hvalid
              ltac:(lia) ltac:(unfold INT_MAX; lia) ltac:(unfold INT_MAX; lia)
              ltac:(lia)) as [_ Hone].
  exact (Hone (mkMatrix 1 3 [0; 0; 0] []) eq_refl eq_refl eq_refl).
Defined.

(** C10 (termination).  With fuel beyond the width, the call never runs out
    of fuel, whatever the input.  On indices that pass the validation, and
    a width that the [int] counters can hold, the arranging loop and the
    run compressor return; the compressor gives every padding column a run
    length of at least 1; every iteration of the column walk that goes on
    has moved [col] forward by at least 1 and not beyond the width; and the
    walk of every row ends.  With the shapes the caller promises and a
    number of rows that the row counter can hold, the call returns [OK]. *)
Theorem C10_terminates {T : Type} (fuel : nat) (params : ConstMatrix T)
    (indices : list Z) (W : Z) (pad_elem : T) (rows cols : Z) (output : Matrix T) :
  W < Z.of_nat fuel ->
  CountAndCopy fuel params indices W pad_elem rows cols output <> OutOfFuel /\
  (0 <= W -> W < INT_MAX -> valid_indices indices W ->
   exists out cpc mx,
     for_range (length indices) 0 (arrange_body indices W)
       (replicate (Z.to_nat W) (-1)) = Done (Next out) /\
     iter fuel (compress_body fuel out W) (0, replicate (Z.to_nat W) 0, 0)
       = Done (cpc, mx) /\
     (forall c, 0 <= c < W -> zget out c < 0 -> 1 <= zget cpc c) /\
     (forall (pv : list T) row col o col' o',
        copy_body params out cpc pv W row (col, o) = Done (Next (col', o')) ->
        col + 1 <= col' /\ (0 <= col -> col' <= W)) /\
     (forall (pv : list T) row o,
        iter fuel (copy_body params out cpc pv W row) (0, o) <> OutOfFuel)) /\
  (shape_consistent params indices W rows cols output -> valid_indices indices W ->
   W < INT_MAX -> rows <= INT_MAX ->
   exists out',
     CountAndCopy fuel params indices W pad_elem rows cols output = Done (OK, out')).
Proof.
  intros Hfuel. split; [apply CountAndCopy_terminates; assumption|]. split.
  - intros HW HbW Hvalid.
    destruct (CountAndCopy_valid (T:=T) fuel indices W Hvalid HW Hfuel HbW)
      as (out & cpc & mx & Hfor & Hcomp & [Houtlen Hmap] & Hruns & _).
    exists out, cpc, mx. split; [assumption|]. split; [assumption|]. split.
    + intros c Hc Hpad. destruct Hruns as (_ & _ & Hrun & _).
      destruct (Hrun c Hc Hpad) as (Hone & _). lia.
    + split.
      * intros pv row col o col' o' Hbody.
        eapply copy_body_advance; eassumption.
      * intros pv row o. apply (copy_walk_terminates params out cpc pv W mx);
          assumption.
  - intros Hshape Hvalid HbW Hbr.
    destruct (CountAndCopy_cells fuel params indices W pad_elem rows cols output
                Hshape Hvalid Hfuel HbW Hbr) as (out' & Hrun & _).
    eauto.
Qed.

Lemma C10_terminates_witness :
  CountAndCopy 11 ex_params ex_indices 10 0 1 4 ex_output <> OutOfFuel /\
  exists out',
    CountAndCopy 11 ex_params ex_indices 10 0 1 4 ex_output = Done (OK, out').
Proof.
  destruct (C10_terminates 11 ex_params ex_indices 10 0 1 4 ex_output ltac:(lia))
    as (Hend & _ & Hok).
  split; [exact Hend|].
  apply (Hok ex_shape ex_valid); unfold INT_MAX; lia.
Defined.


(** * Further properties of the code *)

(** ** Lines 40-58: the inverse map *)

(** X1 (inverse map).  On valid indices the arranging loop returns a vector
    of the width in which the entry at destination [indices(i)] is [i], the
    entry at a destination no source maps to is -1, and a non-negative
    entry [s] at destination [d] means [indices(s) = d]: looking a source
    up after arranging gives it back, both ways. *)
Theorem X1_inverse_map_round_trip (indices : list Z) (W : Z) :
  0 <= W -> valid_indices indices W ->
  exists out_indices,
    for_range (length indices) 0 (arrange_body indices W)
      (replicate (Z.to_nat W) (-1)) = Done (Next out_indices) /\
    length out_indices = Z.to_nat W /\
    (forall (i : nat) d, indices !! i = Some d ->
       vec_get out_indices d = Done (Z.of_nat i)) /\
    (forall d, 0 <= d < W -> d ∉ indices -> vec_get out_indices d = Done (-1)) /\
    (forall d s, vec_get out_indices d = Done s -> 0 <= s ->
       vec_get indices s = Done d).
Proof.
  intros HW [Hnd Hrange].
  pose proof (arrange_spec indices W HW) as Harr.
  destruct (for_range (length indices) 0 (arrange_body indices W)
              (replicate (Z.to_nat W) (-1))) as [[out|st]| |];
    try contradiction.
  - destruct Harr as [_ [Hlen Hmap]].
    exists out. split; [reflexivity|]. split; [assumption|]. split; [|split].
    + intros i d Hi.
      assert (Hd : 0 <= d < W) by (apply Hrange, list_elem_of_lookup; eauto).
      rewrite vec_get_zget by lia. f_equal.
      destruct (Hmap d Hd) as [[_ Hno]|[Hge Hof]].
      * exfalso. apply Hno, list_elem_of_lookup. eauto.
      * assert (Z.to_nat (zget out d) = i) by (eapply NoDup_lookup; eassumption).
        lia.
    + intros d Hd Hno. rewrite vec_get_zget by lia. f_equal.
      destruct (Hmap d Hd) as [[Hm _]|[_ Hof]]; [assumption|].
      exfalso. apply Hno, list_elem_of_lookup. eauto.
    + intros d s Hget Hs. apply vec_get_Done in Hget as [Hd Hget].
      pose proof (lookup_lt_Some _ _ _ Hget) as Hlt.
      assert (Hz : zget out d = s) by (unfold zget; rewrite Hget; reflexivity).
      destruct (Hmap d ltac:(lia)) as [[Hm _]|[_ Hof]]; [lia|].
      apply vec_get_Done. split; [assumption|]. rewrite <- Hz. assumption.
  - destruct Harr as (i & v & Hi & Hbad & _). exfalso. apply Hbad, Hrange.
    apply list_elem_of_lookup. eauto.
Qed.

Lemma X1_inverse_map_round_trip_witness :
  exists out_indices,
    for_range (length ex_indices) 0 (arrange_body ex_indices 10)
      (replicate (Z.to_nat 10) (-1)) = Done (Next out_indices) /\
    vec_get out_indices 7 = Done 0 /\ vec_get out_indices 5 = Done (-1).
Proof.
  destruct (X1_inverse_map_round_trip ex_indices 10 ltac:(lia) ex_valid)
    as (out & Hfor & _ & Hmapped & Hfree & _).
  exists out. split; [exact Hfor|]. split.
  - exact (Hmapped 0%nat 7 eq_refl).
  - apply Hfree; [lia|]. unfold ex_indices. intros Hin.
    repeat (apply elem_of_cons in Hin as [Hin|Hin]; [discriminate|]).
    apply elem_of_nil in Hin. exact Hin.
Defined.

(** The mapped destinations of an arranged inverse map are the indices. *)
Lemma arranged_mapped_perm (indices : list Z) (W : Z) (out : list Z) :
  0 <= W -> valid_indices indices W -> arranged indices W out ->
  filter (fun d => 0 <= zget out d) (seqZ 0 W) ≡ₚ indices.
Proof.
  intros HW [Hnd Hrange] [_ Hmap]. apply NoDup_Permutation.
  - apply NoDup_filter, NoDup_seqZ.
  - assumption.
  - intros d. rewrite list_elem_of_filter, elem_of_seqZ. split.
    + intros [Hge Hd]. destruct (Hmap d ltac:(lia)) as [[Hm _]|[_ Hof]]; [lia|].
      apply list_elem_of_lookup. eauto.
    + intros Hin. pose proof (Hrange d Hin) as Hd. split; [|lia].
      destruct (Hmap d Hd) as [[_ Hno]|[Hge _]]; [contradiction | assumption].
Qed.

(** X2 (as many mapped destinations as sources).  On valid indices the
    destinations with a non-negative entry in the inverse map are the
    indices themselves, each once; so the inverse map has as many mapped
    destinations as there are source columns, and the padding destinations
    are the width less that number. *)
Theorem X2_inverse_map_counts (indices : list Z) (W : Z) :
  0 <= W -> valid_indices indices W ->
  exists out_indices,
    for_range (length indices) 0 (arrange_body indices W)
      (replicate (Z.to_nat W) (-1)) = Done (Next out_indices) /\
    filter (fun d => 0 <= zget out_indices d) (seqZ 0 W) ≡ₚ indices /\
    length (filter (fun d => 0 <= zget out_indices d) (seqZ 0 W)) = length indices /\
    Z.of_nat (length (filter (fun d => zget out_indices d < 0) (seqZ 0 W)))
    = W - Z.of_nat (length indices).
Proof.
  intros HW Hvalid.
  pose proof (arrange_spec indices W HW) as Harr.
  destruct (for_range (length indices) 0 (arrange_body indices W)
              (replicate (Z.to_nat W) (-1))) as [[out|st]| |];
    try contradiction.
  - destruct Harr as [_ Harr].
    pose proof (arranged_mapped_perm indices W out HW Hvalid Harr) as Hperm.
    exists out. split; [reflexivity|]. split; [assumption|].
    pose proof (Permutation_length Hperm) as Hlen.
    split; [assumption|].
    pose proof (Permutation_length
                  (filter_app_complement (fun d => 0 <= zget out d) (seqZ 0 W)))
      as Hsum.
    rewrite length_app, length_seqZ in Hsum.
    assert (Hneg : filter (fun d => zget out d < 0) (seqZ 0 W)
                   = filter (fun d => ~ 0 <= zget out d) (seqZ 0 W)).
    { apply list_filter_iff. intros d. lia. }
    rewrite Hneg. lia.
  - destruct Harr as (i & v & Hi & Hbad & _). exfalso.
    apply Hbad, Hvalid, list_elem_of_lookup. eauto.
Qed.

Lemma X2_inverse_map_counts_witness :
  exists out_indices,
    for_range (length ex_indices) 0 (arrange_body ex_indices 10)
      (replicate (Z.to_nat 10) (-1)) = Done (Next out_indices) /\
    length (filter (fun d => 0 <= zget out_indices d) (seqZ 0 10)) = 4%nat /\
    Z.of_nat (length (filter (fun d => zget out_indices d < 0) (seqZ 0 10))) = 6.
Proof.
  destruct (X2_inverse_map_counts ex_indices 10 ltac:(lia) ex_valid)
    as (out & Hfor & _ & Hmapped & Hpad).
  exists out. split; [exact Hfor|]. split; [exact Hmapped | exact Hpad].
Defined.

(** ** Lines 68-93: the run lengths *)

(** X3 (run lengths).  For any inverse map of the width, the compressor
    returns, and its vector holds 0 at every mapped column and, at every
    padding column, the length of the whole run of padding columns from
    there on: the run ends at the end of the row or right before a mapped
    column.  Inside a run the lengths count down by one.  The width is
    one that the [int] counters [c] and [pad_cols] can hold. *)
Theorem X3_run_lengths_exact (fuel : nat) (out_indices : list Z) (W : Z) :
  length out_indices = Z.to_nat W -> 0 <= W -> W < Z.of_nat fuel ->
  W < INT_MAX ->
  exists cons_pad_cols max_cons_pad_cols,
    iter fuel (compress_body fuel out_indices W) (0, replicate (Z.to_nat W) 0, 0)
      = Done (cons_pad_cols, max_cons_pad_cols) /\
    length cons_pad_cols = Z.to_nat W /\
    (forall c, 0 <= c < W -> 0 <= zget out_indices c -> zget cons_pad_cols c = 0) /\
    (forall c, 0 <= c < W -> zget out_indices c < 0 ->
       1 <= zget cons_pad_cols c /\ c + zget cons_pad_cols c <= W /\
       (forall k, c <= k < c + zget cons_pad_cols c -> zget out_indices k < 0) /\
       (c + zget cons_pad_cols c < W ->
        0 <= zget out_indices (c + zget cons_pad_cols c))) /\
    (forall c, 0 <= c < W -> 1 < zget cons_pad_cols c ->
       zget cons_pad_cols (c + 1) = zget cons_pad_cols c - 1).
Proof.
  intros Hlen HW Hfuel Hb.
  destruct (compress_exact fuel out_indices W Hlen HW Hfuel Hb)
    as (cpc & mx & Hcomp & Hcpclen & Hexact).
  exists cpc, mx. split; [assumption|]. split; [assumption|].
  split; [|split].
  - intros c Hc Hge. apply (Hexact c Hc). assumption.
  - intros c Hc Hpad. apply (Hexact c Hc). assumption.
  - intros c Hc Hlong.
    destruct (Z.lt_ge_cases (zget out_indices c) 0) as [Hpad|Hmapped];
      [|rewrite (proj1 (Hexact c Hc) Hmapped) in Hlong; lia].
    destruct (proj2 (Hexact c Hc) Hpad) as (_ & Hfit & Hall & Hend).
    pose proof (Hall (c + 1) ltac:(lia)) as Hpad1.
    destruct (proj2 (Hexact (c + 1) ltac:(lia)) Hpad1)
      as (Hone1 & Hfit1 & Hall1 & Hend1).
    destruct (Z.lt_trichotomy (c + 1 + zget cpc (c + 1)) (c + zget cpc c))
      as [Hlt|[Heq|Hgt]]; [|lia|].
    + specialize (Hend1 ltac:(lia)).
      specialize (Hall (c + 1 + zget cpc (c + 1)) ltac:(lia)). lia.
    + specialize (Hend ltac:(lia)).
      specialize (Hall1 (c + zget cpc c) ltac:(lia)). lia.
Qed.

Lemma X3_run_lengths_exact_witness :
  iter 11 (compress_body 11 ex_out_indices 10) (0, replicate (Z.to_nat 10) 0, 0)
    = Done (ex_cons_pad_cols, 2) /\
  exists cons_pad_cols max_cons_pad_cols,
    iter 11 (compress_body 11 ex_out_indices 10) (0, replicate (Z.to_nat 10) 0, 0)
      = Done (cons_pad_cols, max_cons_pad_cols) /\
    zget cons_pad_cols 6 = zget cons_pad_cols 5 - 1.
Proof.
  split; [vm_compute; reflexivity|].
  destruct (X3_run_lengths_exact 11 ex_out_indices 10 eq_refl ltac:(lia) ltac:(lia)
              ltac:(unfold INT_MAX; lia))
    as (cpc & mx & Hcomp & _ & _ & _ & Hdown).
  exists cpc, mx. split; [exact Hcomp|].
  apply (Hdown 5 ltac:(lia)).
  assert (Heq : Done (cpc, mx) = Done (ex_cons_pad_cols, 2))
    by (rewrite <- Hcomp; vm_compute; reflexivity).
  injection Heq as -> _. vm_compute. reflexivity.
Defined.

(** X4 (size of the pad vector).  [max_cons_pad_cols], the size
    [pad_elem_vec] is built with, is the length of the longest run of
    consecutive padding columns: no run of padding columns is longer, a run
    of that length exists unless it is 0, and it is 0 exactly when there is
    no padding column.  The width is one that the [int] counters [c],
    [pad_cols] and [max_cons_pad_cols] can hold. *)
Theorem X4_longest_run (fuel : nat) (out_indices : list Z) (W : Z) :
  length out_indices = Z.to_nat W -> 0 <= W -> W < Z.of_nat fuel ->
  W < INT_MAX ->
  exists cons_pad_cols max_cons_pad_cols,
    iter fuel (compress_body fuel out_indices W) (0, replicate (Z.to_nat W) 0, 0)
      = Done (cons_pad_cols, max_cons_pad_cols) /\
    0 <= max_cons_pad_cols <= W /\
    (forall a b, 0 <= a <= b -> b <= W ->
       (forall k, a <= k < b -> zget out_indices k < 0) ->
       b - a <= max_cons_pad_cols) /\
    (max_cons_pad_cols = 0 \/
     exists a, 0 <= a /\ a + max_cons_pad_cols <= W /\
       forall k, a <= k < a + max_cons_pad_cols -> zget out_indices k < 0) /\
    (max_cons_pad_cols = 0 <->
     forall c, 0 <= c < W -> 0 <= zget out_indices c).
Proof.
  intros Hlen HW Hfuel Hb.
  destruct (compress_runs fuel out_indices W Hlen HW Hfuel Hb)
    as (cpc & mx & Hcomp & _ & Hmx & Hrun & Hatt).
  destruct (compress_exact fuel out_indices W Hlen HW Hfuel Hb)
    as (cpc' & mx' & Hcomp' & _ & Hexact).
  rewrite Hcomp in Hcomp'. injection Hcomp' as <- <-.
  assert (Hbound : forall a b, 0 <= a <= b -> b <= W ->
            (forall k, a <= k < b -> zget out_indices k < 0) -> b - a <= mx).
  { intros a b Hab HbW Hall.
    destruct (decide (a = b)) as [->|Hne]; [lia|].
    pose proof (Hall a ltac:(lia)) as Hpad.
    destruct (Hrun a ltac:(lia) Hpad) as (Hle & _).
    destruct (proj2 (Hexact a ltac:(lia)) Hpad) as (_ & _ & _ & Hend).
    destruct (Z.le_gt_cases (b - a) (zget cpc a)) as [Hok|Hlong]; [lia|].
    specialize (Hend ltac:(lia)).
    specialize (Hall (a + zget cpc a) ltac:(lia)). lia. }
  exists cpc, mx. split; [assumption|]. split; [|split; [|split]].
  - destruct Hatt as [->|(c & Hc & Hpad & Heq)]; [lia|].
    destruct (Hrun c Hc Hpad) as (_ & Hfit & _). lia.
  - assumption.
  - destruct Hatt as [Hzero|(c & Hc & Hpad & Heq)]; [left; assumption|].
    right. exists c. destruct (Hrun c Hc Hpad) as (_ & Hfit & Hall).
    rewrite Heq in Hfit, Hall. split; [lia|]. split; assumption.
  - split.
    + intros Hzero c Hc.
      destruct (Z.lt_ge_cases (zget out_indices c) 0) as [Hpad|Hge]; [|assumption].
      destruct (Hrun c Hc Hpad) as (Hle & _). lia.
    + intros Hmapped. destruct Hatt as [Hzero|(c & Hc & Hpad & _)]; [assumption|].
      specialize (Hmapped c Hc). lia.
Qed.

Lemma X4_longest_run_witness :
  exists cons_pad_cols max_cons_pad_cols,
    iter 11 (compress_body 11 ex_out_indices 10) (0, replicate (Z.to_nat 10) 0, 0)
      = Done (cons_pad_cols, max_cons_pad_cols) /\
    0 <= max_cons_pad_cols <= 10 /\ 2 <= max_cons_pad_cols.
Proof.
  destruct (X4_longest_run 11 ex_out_indices 10 eq_refl ltac:(lia) ltac:(lia)
              ltac:(unfold INT_MAX; lia))
    as (cpc & mx & Hcomp & Hmx & Hbound & _).
  exists cpc, mx. split; [exact Hcomp|]. split; [exact Hmx|].
  assert (Hrun : forall k, 5 <= k < 7 -> zget ex_out_indices k < 0).
  { intros k Hk. assert (k = 5 \/ k = 6) as [->| ->] by lia; vm_compute; reflexivity. }
  pose proof (Hbound 5 7 ltac:(lia) ltac:(lia) Hrun). lia.
Defined.

(** ** Lines 99-130: how the row loop batches the padding *)

(** In a tiling made of walk steps over exact run lengths, a write at a
    padding column covers a whole run of padding columns. *)
Lemma padding_writes_whole_runs (out cpc : list Z) (W r : Z) (ws : list (Z * Z)) :
  length out = Z.to_nat W -> exact_runs out W cpc ->
  forall lo hi,
  tiling lo hi ws -> Forall (walk_step out cpc W r) ws ->
  (zget out (lo - r * W) < 0 ->
   lo - r * W = 0 \/ 0 <= zget out (lo - r * W - 1)) ->
  forall w, w ∈ ws -> zget out (w.1 - r * W) < 0 ->
    (w.1 - r * W = 0 \/ 0 <= zget out (w.1 - r * W - 1)) /\
    (w.1 - r * W + w.2 = W \/ 0 <= zget out (w.1 - r * W + w.2)) /\
    forall k, w.1 - r * W <= k < w.1 - r * W + w.2 -> zget out k < 0.
Proof.
  intros Hlen [_ Hexact].
  assert (HoutW : zget out W = 0).
  { unfold zget. rewrite lookup_ge_None_2 by lia. reflexivity. }
  induction ws as [|w ws IH]; intros lo hi Htile Hsteps Hstart w' Hin Hpad.
  - apply elem_of_nil in Hin. contradiction.
  - destruct Htile as (Hlo & Hn & Htile).
    apply Forall_cons in Hsteps as [[Hcol Hstep] Hsteps].
    apply elem_of_cons in Hin as [->|Hin].
    + subst lo. split; [apply Hstart; assumption|].
      destruct Hstep as [[Hge _]|[_ Hw2]]; [lia|].
      destruct (proj2 (Hexact _ Hcol) Hpad) as (_ & Hfit & Hall & Hend).
      rewrite Hw2. split; [|assumption].
      destruct (decide (w.1 - r * W + zget cpc (w.1 - r * W) = W));
        [left; assumption | right; apply Hend; lia].
    + apply (IH (lo + w.2) hi Htile Hsteps); try assumption.
      subst lo. intros Hnext.
      destruct Hstep as [[Hge Hw2]|[Hlt Hw2]].
      * right. rewrite Hw2. replace (w.1 + 1 - r * W - 1) with (w.1 - r * W) by lia.
        assumption.
      * exfalso.
        destruct (proj2 (Hexact _ Hcol) Hlt) as (_ & Hfit & _ & Hend).
        rewrite Hw2 in Hnext.
        replace (w.1 + zget cpc (w.1 - r * W) - r * W)
          with (w.1 - r * W + zget cpc (w.1 - r * W)) in Hnext by lia.
        destruct (decide (w.1 - r * W + zget cpc (w.1 - r * W) = W)) as [Heq|Hne].
        -- rewrite Heq in Hnext. lia.
        -- specialize (Hend ltac:(lia)). lia.
Qed.

(** X5 (one copy per padding run).  On valid input, every [memcpy] of the
    row loop that starts at a padding column fills a whole run of padding
    columns: the columns it covers are all padding ones, the column before
    it, if any, is a mapped one, and it ends at the end of the row or right
    before a mapped column.  No padding run is split over two copies.  The
    sizes are those that the [int] counters of the loops can hold. *)
Theorem X5_one_copy_per_padding_run {T : Type} (fuel : nat) (params : ConstMatrix T)
    (indices : list Z) (W : Z) (pad_elem : T) (rows cols : Z) (output : Matrix T) :
  shape_consistent params indices W rows cols output ->
  valid_indices indices W ->
  W < Z.of_nat fuel ->
  W < INT_MAX -> rows <= INT_MAX ->
  exists out_indices out' (per_row : list (list (Z * Z))),
    for_range (length indices) 0 (arrange_body indices W)
      (replicate (Z.to_nat W) (-1)) = Done (Next out_indices) /\
    CountAndCopy fuel params indices W pad_elem rows cols output = Done (OK, out') /\
    writes out' = writes output ++ concat per_row /\
    Z.of_nat (length per_row) = rows /\
    forall (r : nat) ws w, per_row !! r = Some ws -> w ∈ ws ->
      let col := w.1 - Z.of_nat r * W in
      zget out_indices col < 0 ->
      (col = 0 \/ 0 <= zget out_indices (col - 1)) /\
      (col + w.2 = W \/ 0 <= zget out_indices (col + w.2)) /\
      forall k, col <= k < col + w.2 -> zget out_indices k < 0.
Proof.
  intros Hshape Hvalid Hfuel HbW Hbr.
  destruct (CountAndCopy_spec fuel params indices W pad_elem rows cols output
              Hshape Hvalid Hfuel HbW Hbr)
    as (out & cpc & mx & out' & Hfor & Hcomp & [Houtlen _] & _ & Hrun & _ & _ & _ & _
        & per_row & Hws & Hn & Hrow & _).
  destruct Hshape as (_ & HW & _).
  destruct (compress_exact fuel out W Houtlen HW Hfuel HbW)
    as (cpc' & mx' & Hcomp' & Hexact).
  rewrite Hcomp in Hcomp'. injection Hcomp' as <- <-.
  exists out, out', per_row. split; [assumption|]. split; [assumption|].
  split; [assumption|]. split; [assumption|].
  intros r ws w Hr Hin col Hpad.
  destruct (Hrow r ws Hr) as [Htile Hsteps].
  apply (padding_writes_whole_runs out cpc W (Z.of_nat r) ws Houtlen Hexact
           (Z.of_nat r * W) (Z.of_nat r * W + W) Htile Hsteps); try assumption.
  intros _. left. lia.
Qed.

Lemma X5_one_copy_per_padding_run_witness :
  exists out_indices out' (per_row : list (list (Z * Z))),
    for_range (length ex_indices) 0 (arrange_body ex_indices 10)
      (replicate (Z.to_nat 10) (-1)) = Done (Next out_indices) /\
    CountAndCopy 11 ex_params ex_indices 10 0 1 4 ex_output = Done (OK, out') /\
    per_row = [[(0, 2); (2, 1); (3, 1); (4, 1); (5, 2); (7, 1); (8, 2)]] /\
    (forall k, 5 <= k < 5 + 2 -> zget out_indices k < 0).
Proof.
  destruct (X5_one_copy_per_padding_run 11 ex_params ex_indices 10 0 1 4 ex_output
              ex_shape ex_valid ltac:(lia) ltac:(unfold INT_MAX; lia)
              ltac:(unfold INT_MAX; lia))
    as (out & out' & per_row & Hfor & Hrun & Hws & Hn & Hwhole).
  assert (Hout : Done (Next out) = Done (Next ex_out_indices) :> result (ctl _ Status))
    by (rewrite <- Hfor; vm_compute; reflexivity).
  injection Hout as ->.
  assert (Hout' : Done (OK, out')
                  = Done (OK, mkMatrix 1 10 [0; 0; 13; 14; 12; 0; 0; 11; 0; 0]
                            [(0, 2); (2, 1); (3, 1); (4, 1); (5, 2); (7, 1); (8, 2)]))
    by (rewrite <- Hrun; vm_compute; reflexivity).
  injection Hout' as ->.
  destruct per_row as [|ws [|ws' per_row]]; simpl in Hn; try lia.
  simpl in Hws. rewrite app_nil_r in Hws. subst ws.
  exists ex_out_indices, (mkMatrix 1 10 [0; 0; 13; 14; 12; 0; 0; 11; 0; 0]
    [(0, 2); (2, 1); (3, 1); (4, 1); (5, 2); (7, 1); (8, 2)]),
    [[(0, 2); (2, 1); (3, 1); (4, 1); (5, 2); (7, 1); (8, 2)]].
  split; [exact Hfor|]. split; [exact Hrun|]. split; [reflexivity|].
  assert (Hin : (5, 2) ∈ [(0, 2); (2, 1); (3, 1); (4, 1); (5, 2); (7, 1); (8, 2)]).
  { do 4 apply list_elem_of_further. apply list_elem_of_here. }
  exact (proj2 (proj2 (Hwhole 0%nat _ (5, 2) eq_refl Hin
                         ltac:(vm_compute; reflexivity)))).
Defined.

Lemma filter_seqZ_nil (P : Z -> Prop) `{forall x, Decision (P x)} (a n : Z) :
  (forall k, a <= k < a + n -> ~ P k) -> filter P (seqZ a n) = [].
Proof.
  intros Hno. destruct (filter P (seqZ a n)) as [|x l] eqn:E; [reflexivity|].
  assert (Hx : x ∈ filter P (seqZ a n)) by (rewrite E; left).
  apply list_elem_of_filter in Hx as [HP Hx]. apply elem_of_seqZ in Hx.
  exfalso. apply (Hno x); [lia | assumption].
Qed.

(** The writes of a tiling made of walk steps are at most twice the mapped
    columns it spans, and one more when it starts at a padding column. *)
Lemma walk_length_bound (out cpc : list Z) (W r : Z) (ws : list (Z * Z)) :
  length out = Z.to_nat W -> exact_runs out W cpc ->
  forall lo hi,
  tiling lo hi ws -> Forall (walk_step out cpc W r) ws ->
  Z.of_nat (length ws)
  <= 2 * Z.of_nat (length (filter (fun d => 0 <= zget out d)
                             (seqZ (lo - r * W) (hi - lo))))
     + (if decide (zget out (lo - r * W) < 0) then 1 else 0).
Proof.
  intros Hlen [_ Hexact].
  assert (HoutW : zget out W = 0).
  { unfold zget. rewrite lookup_ge_None_2 by lia. reflexivity. }
  induction ws as [|w ws IH]; intros lo hi Htile Hsteps.
  - simpl. destruct (decide _); lia.
  - destruct Htile as (Hlo & Hn & Htile). subst lo.
    apply Forall_cons in Hsteps as [[Hcol Hstep] Hsteps].
    pose proof (tiling_le _ _ _ Htile) as Hle.
    specialize (IH (w.1 + w.2) hi Htile Hsteps).
    replace (hi - w.1) with (w.2 + (hi - (w.1 + w.2))) by lia.
    rewrite seqZ_app by lia. rewrite filter_app, length_app.
    replace (w.1 + w.2 - r * W) with (w.1 - r * W + w.2) in IH by lia.
    simpl length.
    destruct Hstep as [[Hge Hw2]|[Hlt Hw2]].
    + rewrite Hw2 in *. rewrite seqZ_cons by lia. simpl.
      rewrite filter_cons_True by assumption. simpl length.
      destruct (decide (zget out (w.1 - r * W) < 0)); [lia|].
      destruct (decide (zget out (w.1 - r * W + 1) < 0)); lia.
    + destruct (proj2 (Hexact _ Hcol) Hlt) as (_ & Hfit & Hall & Hend).
      rewrite Hw2 in *.
      rewrite filter_seqZ_nil by (intros k Hk; specialize (Hall k Hk); lia).
      simpl length.
      destruct (decide (zget out (w.1 - r * W) < 0)); [|lia].
      destruct (decide (zget out (w.1 - r * W + zget cpc (w.1 - r * W)) < 0))
        as [Hnext|_]; [|lia].
      destruct (decide (w.1 - r * W + zget cpc (w.1 - r * W) = W)) as [Heq|Hne].
      * rewrite Heq in Hnext. lia.
      * specialize (Hend ltac:(lia)). lia.
Qed.

Lemma length_concat_bound {A : Type} (ls : list (list A)) (b : nat) :
  (forall l, l ∈ ls -> (length l <= b)%nat) ->
  (length (concat ls) <= length ls * b)%nat.
Proof.
  induction ls as [|l ls IH]; intros Hb; simpl; [lia|].
  rewrite length_app.
  pose proof (Hb l ltac:(left)).
  specialize (IH ltac:(intros l' Hl'; apply Hb; right; assumption)). lia.
Qed.

(** X6 (number of copies).  On valid input the row loop calls [memcpy] at
    most [2 * C + 1] times per row, [C] the number of source columns,
    whatever the width; the whole call at most [rows * (2 * C + 1)] times.
    The sizes are those that the [int] counters of the loops can hold. *)
Theorem X6_copies_per_row {T : Type} (fuel : nat) (params : ConstMatrix T)
    (indices : list Z) (W : Z) (pad_elem : T) (rows cols : Z) (output : Matrix T) :
  shape_consistent params indices W rows cols output ->
  valid_indices indices W ->
  W < Z.of_nat fuel ->
  W < INT_MAX -> rows <= INT_MAX ->
  exists out' (per_row : list (list (Z * Z))),
    CountAndCopy fuel params indices W pad_elem rows cols output = Done (OK, out') /\
    writes out' = writes output ++ concat per_row /\
    Z.of_nat (length per_row) = rows /\
    (forall (r : nat) ws, per_row !! r = Some ws ->
       Z.of_nat (length ws) <= 2 * cols + 1) /\
    Z.of_nat (length (concat per_row)) <= rows * (2 * cols + 1).
Proof.
  intros Hshape Hvalid Hfuel HbW Hbr.
  destruct (CountAndCopy_spec fuel params indices W pad_elem rows cols output
              Hshape Hvalid Hfuel HbW Hbr)
    as (out & cpc & mx & out' & Hfor & Hcomp & Harr & _ & Hrun & _ & _ & _ & _
        & per_row & Hws & Hn & Hrow & _).
  destruct Hshape as (_ & HW & Hcols & _).
  pose proof Harr as [Houtlen _].
  destruct (compress_exact fuel out W Houtlen HW Hfuel HbW)
    as (cpc' & mx' & Hcomp' & Hexact).
  rewrite Hcomp in Hcomp'. injection Hcomp' as <- <-.
  pose proof (Permutation_length (arranged_mapped_perm indices W out HW Hvalid Harr))
    as Hcount.
  assert (Hper : forall (r : nat) ws, per_row !! r = Some ws ->
            Z.of_nat (length ws) <= 2 * cols + 1).
  { intros r ws Hr. destruct (Hrow r ws Hr) as [Htile Hsteps].
    pose proof (walk_length_bound out cpc W (Z.of_nat r) ws Houtlen Hexact
                  _ _ Htile Hsteps) as Hb.
    replace (Z.of_nat r * W - Z.of_nat r * W) with 0 in Hb by lia.
    replace (Z.of_nat r * W + W - Z.of_nat r * W) with W in Hb by lia.
    rewrite Hcount in Hb. destruct (decide _); lia. }
  exists out', per_row. split; [assumption|]. split; [assumption|].
  split; [assumption|]. split; [assumption|].
  assert (Hb : (length (concat per_row)
                <= length per_row * Z.to_nat (2 * cols + 1))%nat).
  { apply length_concat_bound. intros ws Hin.
    apply list_elem_of_lookup in Hin as [r Hr]. specialize (Hper r ws Hr). lia. }
  nia.
Qed.

Lemma X6_copies_per_row_witness :
  exists out' (per_row : list (list (Z * Z))),
    CountAndCopy 11 ex_params ex_indices 10 0 1 4 ex_output = Done (OK, out') /\
    writes out' = writes ex_output ++ concat per_row /\
    Z.of_nat (length (concat per_row)) <= 1 * (2 * 4 + 1).
Proof.
  destruct (X6_copies_per_row 11 ex_params ex_indices 10 0 1 4 ex_output
              ex_shape ex_valid ltac:(lia) ltac:(unfold INT_MAX; lia)
              ltac:(unfold INT_MAX; lia))
    as (out' & per_row & Hrun & Hws & _ & _ & Htotal).
  exists out', per_row. split; [exact Hrun|]. split; [exact Hws | exact Htotal].
Defined.

(** ** Lines 22-133: edge cases of the whole function *)

(** Two buffers of [rows] by [W] cells that agree cell by cell are equal. *)
Lemma cells_ext {A : Type} (l1 l2 : list A) (rows W : Z) :
  0 <= rows -> 0 <= W ->
  Z.of_nat (length l1) = rows * W -> Z.of_nat (length l2) = rows * W ->
  (forall r c, 0 <= r < rows -> 0 <= c < W ->
     l1 !! Z.to_nat (r * W + c) = l2 !! Z.to_nat (r * W + c)) ->
  l1 = l2.
Proof.
  intros Hrows HW Hlen1 Hlen2 Hcells. apply list_eq. intros k.
  destruct (Z.lt_ge_cases (Z.of_nat k) (rows * W)) as [Hin|Hout].
  - assert (HWpos : 0 < W) by nia.
    pose proof (Z.div_mod (Z.of_nat k) W ltac:(lia)) as Hdm.
    pose proof (Z.mod_pos_bound (Z.of_nat k) W HWpos) as Hmod.
    assert (Hdiv : 0 <= Z.of_nat k / W < rows).
    { split; [apply Z.div_pos; lia|]. apply Z.div_lt_upper_bound; lia. }
    specialize (Hcells (Z.of_nat k / W) (Z.of_nat k mod W) Hdiv Hmod).
    replace (Z.to_nat (Z.of_nat k / W * W + Z.of_nat k mod W)) with k in Hcells by lia.
    assumption.
  - rewrite !lookup_ge_None_2 by lia. reflexivity.
Qed.

(** X7 (no source column).  With no index at all every destination is a
    padding one: the call returns [OK], the buffer holds the pad value in
    every cell, and, for a positive width, each row is filled by a single
    [memcpy] of the whole row.  The sizes are those that the [int]
    counters of the loops can hold. *)
Theorem X7_all_padding {T : Type} (fuel : nat) (params : ConstMatrix T)
    (W : Z) (pad_elem : T) (rows cols : Z) (output : Matrix T) :
  shape_consistent params [] W rows cols output ->
  W < Z.of_nat fuel ->
  W < INT_MAX -> rows <= INT_MAX ->
  exists out' (per_row : list (list (Z * Z))),
    CountAndCopy fuel params [] W pad_elem rows cols output = Done (OK, out') /\
    data out' = replicate (Z.to_nat (rows * W)) pad_elem /\
    writes out' = writes output ++ concat per_row /\
    Z.of_nat (length per_row) = rows /\
    (0 < W -> forall (r : nat) ws, per_row !! r = Some ws ->
       ws = [(Z.of_nat r * W, W)]).
Proof.
  intros Hshape Hfuel HbW Hbr.
  assert (Hvalid : valid_indices [] W).
  { split; [constructor|]. intros v Hv. apply elem_of_nil in Hv. contradiction. }
  destruct (CountAndCopy_spec fuel params [] W pad_elem rows cols output
              Hshape Hvalid Hfuel HbW Hbr)
    as (out & cpc & mx & out' & Hfor & Hcomp & Harr & _ & Hrun & _ & _ & Hlen & Hcells
        & per_row & Hws & Hn & Hrow & _).
  destruct Hshape as (Hrows & HW & _ & _ & _ & _ & _ & _ & Holen).
  pose proof Harr as [Houtlen Hmap].
  assert (Hpad : forall c, 0 <= c < W -> zget out c = -1).
  { intros c Hc. destruct (Hmap c Hc) as [[Hm _]|[_ Hof]]; [assumption|].
    rewrite lookup_nil in Hof. discriminate. }
  destruct (compress_exact fuel out W Houtlen HW Hfuel HbW)
    as (cpc' & mx' & Hcomp' & _ & Hexact).
  rewrite Hcomp in Hcomp'. injection Hcomp' as <- <-.
  exists out', per_row. split; [assumption|]. split; [|split; [assumption|split]].
  - apply (cells_ext _ _ rows W Hrows HW); [lia | rewrite length_replicate; nia |].
    intros r c Hr Hc. rewrite (Hcells r c Hr Hc).
    pose proof (cell_of_row W rows r c Hr Hc).
    rewrite lookup_replicate_2 by lia.
    unfold expected. rewrite (Hpad c Hc). reflexivity.
  - assumption.
  - intros HWpos r ws Hr. destruct (Hrow r ws Hr) as [Htile Hsteps].
    destruct ws as [|w ws]; [simpl in Htile; lia|].
    destruct Htile as (Hlo & _ & Htile).
    apply Forall_cons in Hsteps as [[Hcol Hstep] _].
    rewrite Hlo in Hcol, Hstep.
    replace (Z.of_nat r * W - Z.of_nat r * W) with 0 in Hcol, Hstep by lia.
    pose proof (Hpad 0 Hcol) as Hzero.
    destruct Hstep as [[Hge _]|[Hlt Hw2]]; [lia|].
    destruct (proj2 (Hexact 0 Hcol) Hlt) as (Hone1 & Hfit & _ & Hend).
    assert (HwW : w.2 = W).
    { rewrite Hw2. destruct (decide (zget cpc 0 = W)) as [|Hne]; [assumption|].
      specialize (Hend ltac:(lia)).
      rewrite (Hpad (0 + zget cpc 0) ltac:(lia)) in Hend. lia. }
    rewrite HwW in Htile.
    destruct ws as [|w' ws].
    + destruct w as [o n]. simpl in *. subst. reflexivity.
    + destruct Htile as (_ & Hn' & Htile). apply tiling_le in Htile. lia.
Qed.

Lemma X7_all_padding_witness :
  exists out' (per_row : list (list (Z * Z))),
    CountAndCopy 4 (mkConstMatrix 2 0 []) [] 3 7 2 0
      (mkMatrix 2 3 [1; 2; 3; 4; 5; 6] []) = Done (OK, out') /\
    data out' = [7; 7; 7; 7; 7; 7] /\
    writes out' = [] ++ concat per_row /\
    per_row !! 1%nat = Some [(3, 3)].
Proof.
  assert (Hshape : shape_consistent (mkConstMatrix 2 0 []) [] 3 2 0
                     (mkMatrix 2 3 [1; 2; 3; 4; 5; 6] []))
    by (unfold shape_consistent; simpl; lia).
  destruct (X7_all_padding 4 (mkConstMatrix 2 0 []) 3 7 2 0
              (mkMatrix 2 3 [1; 2; 3; 4; 5; 6] []) Hshape ltac:(lia)
              ltac:(unfold INT_MAX; lia) ltac:(unfold INT_MAX; lia))
    as (out' & per_row & Hrun & Hdata & Hws & Hn & Hone).
  exists out', per_row. split; [exact Hrun|]. split; [exact Hdata|].
  split; [exact Hws|].
  destruct (lookup_lt_is_Some_2 per_row 1) as [ws Hr]; [lia|].
  rewrite Hr. f_equal. exact (Hone ltac:(lia) 1%nat ws Hr).
Defined.

(** ** Lines 135-172: the functor as callers use it *)

(** X8 (nothing to copy).  Through the functor for the CPU device: with
    valid indices and no row to process, or a width of 0, the call returns
    [OK] and hands the buffer back as it came, whatever the shapes of
    [params] and of the buffer, having called [memcpy] not once.  The
    sizes are those that the [int] counters of the loops can hold. *)
Theorem X8_nothing_to_copy {CPUDevice T : Type} (dvc : CPUDevice) (fuel : nat)
    (params : ConstMatrix T) (indices : list Z) (W : Z) (pad_elem : T)
    (rows cols : Z) (output : Matrix T) :
  0 <= W -> valid_indices indices W -> W < Z.of_nat fuel ->
  W < INT_MAX -> rows <= INT_MAX ->
  rows <= 0 \/ W = 0 ->
  ScatterColumnsFunctor dvc fuel params indices W pad_elem rows cols output
  = Done (OK, output).
Proof.
  intros HW Hvalid Hfuel HbW Hbr Hempty.
  unfold ScatterColumnsFunctor, ScatterColumnsFunctorCPU.
  destruct (CountAndCopy_valid (T:=T) fuel indices W Hvalid HW Hfuel HbW)
    as (out & cpc & mx & _ & _ & _ & _ & ->).
  assert (Hloop : for_int (Z.to_nat rows) 0
                    (row_body fuel params out cpc
                       (replicate (Z.to_nat mx) pad_elem) W) output
                  = Done (Next output)).
  { destruct Hempty as [Hrows| ->].
    - replace (Z.to_nat rows) with 0%nat by lia. reflexivity.
    - apply (for_int_rule _ (fun _ o => o = output)
               (fun res => res = Done (Next output))); [lia| | | |reflexivity].
      + intros row o _ ->. unfold row_body.
        destruct fuel as [|fuel]; [simpl in Hfuel; lia|].
        reflexivity.
      + unfold INT_MAX in Hbr. lia.
      + intros o ->. reflexivity. }
  rewrite Hloop. reflexivity.
Qed.

Lemma X8_nothing_to_copy_witness :
  ScatterColumnsFunctor tt 11 ex_params ex_indices 10 0 0 4 ex_output
  = Done (OK, ex_output) /\
  ScatterColumnsFunctor tt 1 ex_params [] 0 0 5 4 ex_output
  = Done (OK, ex_output).
Proof.
  split.
  - apply (X8_nothing_to_copy tt 11 ex_params ex_indices 10 0 0 4 ex_output
             ltac:(lia) ex_valid ltac:(lia) ltac:(unfold INT_MAX; lia)
             ltac:(unfold INT_MAX; lia)).
    left. lia.
  - apply (X8_nothing_to_copy tt 1 ex_params [] 0 0 5 4 ex_output
             ltac:(lia));
      [|lia|unfold INT_MAX; lia|unfold INT_MAX; lia|right; reflexivity].
    split; [constructor|]. intros v Hv. apply elem_of_nil in Hv. contradiction.
Defined.

(** X9 (the buffer is overwritten whole).  Through the functor for the CPU
    device, on valid input: the call keeps the shape of the buffer, and the
    cells it leaves do not depend on what the buffer held before.  Any
    other buffer of the same shape gives the same cells, and so does
    running the call again on its own output: the call is idempotent on
    the cells.  The sizes are those that the [int] counters of the loops
    can hold. *)
Theorem X9_overwrites_whole_buffer {CPUDevice T : Type} (dvc : CPUDevice)
    (fuel : nat) (params : ConstMatrix T) (indices : list Z) (W : Z)
    (pad_elem : T) (rows cols : Z) (output : Matrix T) :
  shape_consistent params indices W rows cols output ->
  valid_indices indices W ->
  W < Z.of_nat fuel ->
  W < INT_MAX -> rows <= INT_MAX ->
  exists out1,
    ScatterColumnsFunctor dvc fuel params indices W pad_elem rows cols output
      = Done (OK, out1) /\
    dim0 out1 = dim0 output /\ dim1 out1 = dim1 output /\
    length (data out1) = length (data output) /\
    (forall output2 : Matrix T,
       shape_consistent params indices W rows cols output2 ->
       exists out2,
         ScatterColumnsFunctor dvc fuel params indices W pad_elem rows cols output2
           = Done (OK, out2) /\
         data out2 = data out1) /\
    exists out3,
      ScatterColumnsFunctor dvc fuel params indices W pad_elem rows cols out1
        = Done (OK, out3) /\
      data out3 = data out1.
Proof.
  intros Hshape Hvalid Hfuel HbW Hbr.
  unfold ScatterColumnsFunctor, ScatterColumnsFunctorCPU.
  destruct (CountAndCopy_spec fuel params indices W pad_elem rows cols output
              Hshape Hvalid Hfuel HbW Hbr)
    as (out & cpc & mx & out1 & Hfor & _ & _ & _ & Hrun & Hd0 & Hd1 & Hlen & Hcells & _).
  assert (Hother : forall output2 : Matrix T,
            shape_consistent params indices W rows cols output2 ->
            exists out2,
              CountAndCopy fuel params indices W pad_elem rows cols output2
                = Done (OK, out2) /\
              data out2 = data out1).
  { intros output2 Hshape2.
    destruct (CountAndCopy_spec fuel params indices W pad_elem rows cols output2
                Hshape2 Hvalid Hfuel HbW Hbr)
      as (out' & cpc' & mx' & out2 & Hfor' & _ & _ & _ & Hrun2 & _ & _ & Hlen2
          & Hcells2 & _).
    rewrite Hfor in Hfor'. injection Hfor' as <-.
    exists out2. split; [assumption|].
    destruct Hshape as (Hrows & HW & _ & _ & _ & _ & _ & _ & Holen).
    destruct Hshape2 as (_ & _ & _ & _ & _ & _ & _ & _ & Holen2).
    apply (cells_ext _ _ rows W Hrows HW); [lia | lia |].
    intros r c Hr Hc. rewrite (Hcells r c Hr Hc), (Hcells2 r c Hr Hc). reflexivity. }
  pose proof Hshape as (Hrows & HW & Hcols & Hp0 & Hp1 & Hplen & Ho0 & Ho1 & Holen).
  exists out1. split; [assumption|]. split; [congruence|]. split; [congruence|].
  split; [assumption|]. split; [assumption|].
  apply Hother. unfold shape_consistent. repeat split; try assumption. lia.
Qed.

Lemma X9_overwrites_whole_buffer_witness :
  exists out1 out2,
    ScatterColumnsFunctor tt 11 ex_params ex_indices 10 0 1 4 ex_output
      = Done (OK, out1) /\
    ScatterColumnsFunctor tt 11 ex_params ex_indices 10 0 1 4
      (mkMatrix 1 10 [1; 2; 3; 4; 5; 6; 7; 8; 9; 10] [(0, 10)]) = Done (OK, out2) /\
    data out2 = data out1.
Proof.
  destruct (X9_overwrites_whole_buffer tt 11 ex_params ex_indices 10 0 1 4 ex_output
              ex_shape ex_valid ltac:(lia) ltac:(unfold INT_MAX; lia)
              ltac:(unfold INT_MAX; lia))
    as (out1 & Hrun & _ & _ & _ & Hother & _).
  destruct (Hother (mkMatrix 1 10 [1; 2; 3; 4; 5; 6; 7; 8; 9; 10] [(0, 10)]))
    as (out2 & Hrun2 & Hdata).
  { unfold shape_consistent. simpl. lia. }
  exists out1, out2. split; [exact Hrun|]. split; [exact Hrun2 | exact Hdata].
Defined.

(** X10 (duplicates are reported first).  The duplicate check of lines
    32-38 runs before anything else: indices that hold a duplicate get the
    duplicate failure whatever the width is and whether or not an index is
    out of the range as well; the buffer comes back untouched, and the
    number of unique indices in the message is below the total. *)
Theorem X10_duplicates_first {CPUDevice T : Type} (dvc : CPUDevice) (fuel : nat)
    (params : ConstMatrix T) (indices : list Z) (W : Z) (pad_elem : T)
    (rows cols : Z) (output : Matrix T) :
  ~ NoDup indices ->
  exists total unique,
    ScatterColumnsFunctor dvc fuel params indices W pad_elem rows cols output
    = Done (InvalidArgument (duplicate_msg total unique), output) /\
    total = Z.of_nat (length indices) /\ 0 < unique < total.
Proof.
  intros Hdup. unfold ScatterColumnsFunctor, ScatterColumnsFunctorCPU.
  exists (Z.of_nat (length indices)),
         (Z.of_nat (size (list_to_set indices : gset Z))).
  split; [apply CountAndCopy_duplicate; assumption|]. split; [reflexivity|].
  pose proof (size_list_to_set_le indices) as Hle.
  assert (Hne : size (list_to_set indices : gset Z) <> length indices).
  { intros Heq. apply Hdup, size_list_to_set_NoDup. assumption. }
  assert (Hpos : size (list_to_set indices : gset Z) <> 0%nat).
  { intros Hzero. apply size_empty_inv in Hzero.
    destruct indices as [|x l]; [apply Hdup; constructor|].
    assert (Hx : x ∈ (list_to_set (x :: l) : gset Z))
      by (apply elem_of_list_to_set; left).
    apply (Hzero x) in Hx. apply not_elem_of_empty in Hx. contradiction. }
  lia.
Qed.

Lemma X10_duplicates_first_witness :
  exists total unique,
    ScatterColumnsFunctor tt 0 ex_params [12; 4; 12] (-3) 0 1 4 ex_output
    = Done (InvalidArgument (duplicate_msg total unique), ex_output) /\
    total = 3 /\ 0 < unique < total.
Proof.
  apply (X10_duplicates_first tt 0 ex_params [12; 4; 12] (-3) 0 1 4 ex_output).
  intros Hnd. apply NoDup_cons in Hnd as [Hno _]. apply Hno.
  right. left.
Defined.



(** X12 (nothing of [params] is lost).  On valid input the output holds
    every cell of [params]: two calls with the same indices and width whose
    outputs hold the same cells were given the same [params], whatever
    their pad values. *)
Theorem X12_params_recoverable {T : Type} (fuel : nat)
    (params1 params2 : ConstMatrix T) (indices : list Z) (W : Z)
    (pad1 pad2 : T) (rows cols : Z) (output1 output2 out1 out2 : Matrix T) :
  shape_consistent params1 indices W rows cols output1 ->
  shape_consistent params2 indices W rows cols output2 ->
  valid_indices indices W ->
  W < Z.of_nat fuel ->
  CountAndCopy fuel params1 indices W pad1 rows cols output1 = Done (OK, out1) ->
  CountAndCopy fuel params2 indices W pad2 rows cols output2 = Done (OK, out2) ->
  data out1 = data out2 ->
  cdata params1 = cdata params2.
Proof.
  intros Hs1 Hs2 Hvalid Hfuel Hrun1 Hrun2 Hdata.
  destruct (CountAndCopy_cells_of fuel params1 indices W pad1 rows cols output1 out1
              Hs1 Hvalid Hfuel Hrun1) as (Hd01 & Hd11 & _ & Hcells1).
  destruct (CountAndCopy_cells_of fuel params2 indices W pad2 rows cols output2 out2
              Hs2 Hvalid Hfuel Hrun2) as (Hd02 & Hd12 & _ & Hcells2).
  destruct Hs1 as (Hrows & HW & Hcols & Hp01 & Hp11 & Hplen1 & _).
  destruct Hs2 as (_ & _ & _ & Hp02 & Hp12 & Hplen2 & _).
  apply (cells_ext _ _ rows cols Hrows ltac:(lia) Hplen1 Hplen2).
  intros r c Hr Hc.
  destruct (lookup_lt_is_Some_2 indices (Z.to_nat c)) as [d Hd]; [lia|].
  assert (HdW : 0 <= d < W) by (apply Hvalid, list_elem_of_lookup; eauto).
  destruct (proj1 (Hcells1 r d Hr HdW) _ Hd) as (v1 & Hp1 & Ho1).
  destruct (proj1 (Hcells2 r d Hr HdW) _ Hd) as (v2 & Hp2 & Ho2).
  apply mat_get_Done_lookup in Ho1, Ho2.
  rewrite Hd11, Hdata in Ho1. rewrite Hd12 in Ho2.
  replace (Z.of_nat (Z.to_nat c)) with c in Hp1, Hp2 by lia.
  apply cmat_get_Done_lookup in Hp1, Hp2.
  rewrite Hp11 in Hp1. rewrite Hp12 in Hp2. congruence.
Qed.

Lemma X12_params_recoverable_witness :
  cdata ex_params = cdata (mkConstMatrix 1 4 [11; 12; 13; 14]).
Proof.
  assert (Hvalid : valid_indices [2; 0; 3; 1] 4).
  { apply valid_indices_Forall.
    - apply (bool_decide_unpack _). vm_compute. exact I.
    - repeat constructor; lia. }
  assert (Hshape1 : shape_consistent ex_params [2; 0; 3; 1] 4 1 4
                      (mkMatrix 1 4 [5; 5; 5; 5] []))
    by (unfold shape_consistent; simpl; lia).
  assert (Hshape2 : shape_consistent (mkConstMatrix 1 4 [11; 12; 13; 14])
                      [2; 0; 3; 1] 4 1 4 (mkMatrix 1 4 [6; 6; 6; 6] []))
    by (unfold shape_consistent; simpl; lia).
  apply (X12_params_recoverable 5 ex_params (mkConstMatrix 1 4 [11; 12; 13; 14])
           [2; 0; 3; 1] 4 0 77 1 4
           (mkMatrix 1 4 [5; 5; 5; 5] []) (mkMatrix 1 4 [6; 6; 6; 6] [])
           (mkMatrix 1 4 [12; 14; 11; 13] [(0, 1); (1, 1); (2, 1); (3, 1)])
           (mkMatrix 1 4 [12; 14; 11; 13] [(0, 1); (1, 1); (2, 1); (3, 1)])
           Hshape1 Hshape2 Hvalid ltac:(lia)).
  - vm_compute. reflexivity.
  - vm_compute. reflexivity.
  - reflexivity.
Defined.
